(** * Porcupine directory tree: git status probe, project registry and
      tree reconciliation

    A shallow embedding of [porcupine/plugins/directory_tree.py].  The
    Treeview widget is an explicit forest of items that carry their
    identifier, their [values] (the path), their tag set and their ordered
    children; the identifier allocator of the widget is a counter threaded
    through every operation that inserts.  Python exceptions (assertion
    failures, [IndexError], [KeyError], [StopIteration], [OSError] from the
    file system) are the [None] of an option result. *)

From Stdlib Require Import String Ascii List ZArith Lia Bool Sorting.Sorted Permutation.
From stdpp Require Import gmap strings list fin_maps sorting.

Open Scope string_scope.
Open Scope list_scope.
Open Scope nat_scope.

(** ** Paths

    [pathlib.Path] values of the plugin are absolute POSIX paths: a path is
    the list of its components, the file system root being the empty list.
    POSIX leaves the meaning of exactly two leading slashes to the
    implementation and [pathlib] keeps that root apart from [/]: such a path
    has the empty string, which is no component, in front of its
    components. *)

Definition Path := list string.

Fixpoint split_on (sep : ascii) (s : string) : list string :=
  match s with
  | EmptyString => [EmptyString]
  | String c s' =>
      if Ascii.eqb c sep then EmptyString :: split_on sep s'
      else match split_on sep s' with
           | [] => [String c EmptyString]
           | w :: ws => String c w :: ws
           end
  end.

(** Components of a path string: empty components and ["."] are dropped,
    [".."] is kept, as [pathlib] does. *)
Definition path_parts (s : string) : list string :=
  List.filter (fun w => negb (String.eqb w "" || String.eqb w "."))
              (split_on "/"%char s).

(** [root / s]: an absolute right operand replaces the left one, and its
    root is [//] when it begins with two slashes and no third one. *)
Definition joinpath (root : Path) (s : string) : Path :=
  if String.prefix "//" s && negb (String.prefix "///" s) then "" :: path_parts s
  else if String.prefix "/" s then path_parts s
  else root ++ path_parts s.

(** [str(path)] *)
Definition str_path (p : Path) : string :=
  match p with
  | [] => "/"
  | _ => String.concat "" (List.map (fun c => "/" +:+ c) p)
  end.

(** [path.parents]: nearest parent first, down to the root. *)
Fixpoint parents (p : Path) : list Path :=
  match p with
  | [] => []
  | c :: q =>
      match q with
      | [] => [[]]
      | _ => List.map (cons c) (parents q) ++ [[]]
      end
  end.

(** [path.name] *)
Definition path_name (p : Path) : string := List.last p "".

(** ** Status tags *)

Inductive Status := Added | Modified | MergeConflict | Untracked | Ignored.

Inductive Tag :=
| TagDir | TagFile | TagProject | TagDummy
| TagGit (s : Status).

#[global] Instance Status_eq_dec : EqDecision Status.
Proof. solve_decision. Defined.

#[global] Instance Tag_eq_dec : EqDecision Tag.
Proof. solve_decision. Defined.

Definition Status_to_nat (s : Status) : nat :=
  match s with
  | Added => 0 | Modified => 1 | MergeConflict => 2 | Untracked => 3 | Ignored => 4
  end.

Definition Status_of_nat (n : nat) : option Status :=
  match n with
  | 0 => Some Added | 1 => Some Modified | 2 => Some MergeConflict
  | 3 => Some Untracked | 4 => Some Ignored | _ => None
  end.

#[global] Program Instance Status_countable : Countable Status :=
  inj_countable Status_to_nat Status_of_nat _.
Next Obligation. by intros []. Qed.

Definition Tag_to_nat (t : Tag) : nat :=
  match t with
  | TagDir => 0 | TagFile => 1 | TagProject => 2 | TagDummy => 3
  | TagGit s => 4 + Status_to_nat s
  end.

Definition Tag_of_nat (n : nat) : option Tag :=
  match n with
  | 0 => Some TagDir | 1 => Some TagFile | 2 => Some TagProject | 3 => Some TagDummy
  | S (S (S (S k))) => TagGit <$> Status_of_nat k
  end.

#[global] Program Instance Tag_countable : Countable Tag :=
  inj_countable Tag_to_nat Tag_of_nat _.
Next Obligation. by intros [| | | |[]]. Qed.

(** [tag.startswith('git_')] *)
Definition is_git_tag (t : Tag) : bool :=
  match t with TagGit _ => true | _ => false end.

(** ** StatusProbe: [run_git_status] *)

(** A Python [str] is the list of its code points.  [ord] and [str_of] give
    the code points of the ASCII characters and literals of the source. *)
Definition str := list N.

Definition ord (c : ascii) : N := N_of_ascii c.

Fixpoint str_of (s : string) : str :=
  match s with
  | EmptyString => []
  | String c s' => ord c :: str_of s'
  end.

(** The name the file system has for a [str], its UTF-8 encoding
    ([os.fsencode]): path components are kept in that form.  The encoding is
    one-to-one, keeps the ASCII characters (the separator among them) and no
    byte of a longer sequence is an ASCII one. *)
Definition utf8_char (c : N) : string :=
  let byte (n : N) := ascii_of_N n in
  if (c <? 128)%N then String (byte c) ""
  else if (c <? 2048)%N then
    String (byte (192 + c / 64)%N) (String (byte (128 + c mod 64)%N) "")
  else if (c <? 65536)%N then
    String (byte (224 + c / 4096)%N)
      (String (byte (128 + (c / 64) mod 64)%N) (String (byte (128 + c mod 64)%N) ""))
  else
    String (byte (240 + (c / 262144) mod 8)%N)
      (String (byte (128 + (c / 4096) mod 64)%N)
         (String (byte (128 + (c / 64) mod 64)%N) (String (byte (128 + c mod 64)%N) ""))).

Definition fsencode (s : str) : string := String.concat "" (List.map utf8_char s).

(** What [subprocess.run] did: it raised [OSError] or [UnicodeError], or it
    completed with a return code and the decoded standard output. *)
Inductive RunResult :=
| RunRaised
| RunCompleted (returncode : Z) (stdout : str).

(** The line boundaries of [str.splitlines]: LF, VT, FF, CR, FS, GS, RS,
    NEL (U+0085), LS (U+2028) and PS (U+2029). *)
Definition is_linebreak (c : N) : bool :=
  ((10 <=? c) && (c <=? 13) || (28 <=? c) && (c <=? 30)
   || (c =? 133) || (c =? 8232) || (c =? 8233))%N.

(** [str.splitlines()]: CR LF is one boundary ([after_cr] tells that the
    last character was a CR), and there is no empty last line after a final
    boundary. *)
Fixpoint splitlines_from (after_cr : bool) (cur : str) (s : str) : list str :=
  match s with
  | [] => match cur with [] => [] | _ => [cur] end
  | c :: s' =>
      if (c =? 10)%N && after_cr then splitlines_from false cur s'
      else if is_linebreak c then cur :: splitlines_from (c =? 13)%N [] s'
      else splitlines_from false (cur ++ [c]) s'
  end.

Definition splitlines (s : str) : list str := splitlines_from false [] s.

(** One turn of the loop of [run_git_status]: the new map and the line when
    a warning was logged for it; [None] is the [IndexError] of [line[1]].
    [line[3:]] is [drop 3 line] and [line[:2]] is [take 2 line]. *)
Definition status_line (project_root : Path) (result : gmap Path Status)
    (line : str) : option (gmap Path Status * list str) :=
  let path := joinpath project_root (fsencode (drop 3 line)) in
  match line !! 1 with
  | None => None
  | Some c1 =>
      if (c1 =? ord "M")%N then Some (<[path := Modified]> result, [])
      else if (c1 =? ord " ")%N then Some (<[path := Added]> result, [])
      else if bool_decide (take 2 line = str_of "??")
           then Some (<[path := Untracked]> result, [])
      else if bool_decide (take 2 line = str_of "!!")
           then Some (<[path := Ignored]> result, [])
      else if bool_decide (take 2 line = str_of "AA")
              || bool_decide (take 2 line = str_of "UU")
           then Some (<[path := MergeConflict]> result, [])
      else Some (result, [line])
  end.

Fixpoint status_lines (project_root : Path) (result : gmap Path Status)
    (warnings : list str) (lines : list str)
    : option (gmap Path Status * list str) :=
  match lines with
  | [] => Some (result, warnings)
  | line :: rest =>
      match status_line project_root result line with
      | None => None
      | Some (result', w) => status_lines project_root result' (warnings ++ w) rest
      end
  end.

(** The returned map together with the lines warned about. *)
Definition run_git_status (project_root : Path) (run_result : RunResult)
    : option (gmap Path Status * list str) :=
  match run_result with
  | RunRaised => Some (∅, [])
  | RunCompleted returncode stdout =>
      if negb (Z.eqb returncode 0) then Some (∅, [])
      else status_lines project_root {[ joinpath project_root ".git" := Ignored ]} []
                        (splitlines stdout)
  end.

(** ** TreeModel: the items of the Treeview

    An item has its identifier (the root item [''] is 0, the widget hands
    out 1, 2, ... and never reuses one), its [values] (the path; the dummy
    has none), its tags as a set (the code reads them through membership
    and set comparison only) and its children in display order.  The text of
    an item is presentation and is left out. *)

#[local] Unset Elimination Schemes.
Inductive Item := mkItem {
  item_id : nat;
  item_values : option Path;
  item_tags : gset Tag;
  item_children : list Item }.
#[local] Set Elimination Schemes.

Definition set_children (it : Item) (children : list Item) : Item :=
  mkItem (item_id it) (item_values it) (item_tags it) children.

Definition set_tags (it : Item) (tags : gset Tag) : Item :=
  mkItem (item_id it) (item_values it) tags (item_children it).

Definition tag_has (t : Tag) (it : Item) : bool := bool_decide (t ∈ item_tags it).

Definition find_item (id : nat) (l : list Item) : option Item :=
  List.find (fun it => Nat.eqb (item_id it) id) l.

Definition delete_item (id : nat) (l : list Item) : list Item :=
  List.filter (fun it => negb (Nat.eqb (item_id it) id)) l.

Definition replace_item (id : nat) (new : Item) (l : list Item) : list Item :=
  List.map (fun it => if Nat.eqb (item_id it) id then new else it) l.

Definition insert_at (index : nat) (it : Item) (l : list Item) : list Item :=
  take index l ++ it :: drop index l.

(** [self.move(item, parent, index)] among the children of [parent] *)
Definition move_child (id : nat) (index : nat) (l : list Item) : list Item :=
  match find_item id l with
  | Some it => insert_at index it (delete_item id l)
  | None => l
  end.

Definition dummy_item (id : nat) : Item := mkItem id None {[ TagDummy ]} [].

(** [_insert_dummy]; [assert parent] fails on the root item. *)
Definition insert_dummy (parent : Item) (next : nat) : option (Item * nat) :=
  if Nat.eqb (item_id parent) 0 then None
  else Some (set_children parent (item_children parent ++ [dummy_item next]), S next).

Definition contains_dummy (parent : Item) : bool :=
  match item_children parent with
  | [c] => tag_has TagDummy c
  | _ => false
  end.

(** [get_path]: the assertion, then [values[0]]. *)
Definition get_path (it : Item) : option Path :=
  if tag_has TagDummy it then None else item_values it.

(** ** The file system *)

Record FileSystem := {
  fs_listdir : Path -> option (list string);
  fs_is_dir : Path -> bool }.

Definition iterdir (fs : FileSystem) (p : Path) : option (list Path) :=
  List.map (fun name => p ++ [name]) <$> fs_listdir fs p.

(** ** Dictionaries in insertion order, for [path2id] *)

Fixpoint dict_set (k : Path) (v : nat) (d : list (Path * nat)) : list (Path * nat) :=
  match d with
  | [] => [(k, v)]
  | (k', v') :: d' =>
      if decide (k' = k) then (k', v) :: d' else (k', v') :: dict_set k v d'
  end.

Definition dict_has (k : Path) (d : list (Path * nat)) : bool :=
  existsb (fun kv => bool_decide (fst kv = k)) d.

Fixpoint make_path2id (children : list Item) (d : list (Path * nat))
    : option (list (Path * nat)) :=
  match children with
  | [] => Some d
  | it :: rest =>
      match get_path it with
      | None => None
      | Some p => make_path2id rest (dict_set p (item_id it) d)
      end
  end.

(** ** TreeSynchronizer: the status of one child *)

(** The [while] loop over [child_path.parents]: the chain from the child up
    to the first path that is a project root; [None] is [StopIteration]. *)
Fixpoint chain_to_root (project_roots : gset Path) (chain : list Path)
    : option (list Path) :=
  match chain with
  | [] => None
  | p :: rest =>
      if bool_decide (p ∈ project_roots) then Some [p]
      else cons p <$> chain_to_root project_roots rest
  end.

Definition relevant_parents (project_roots : gset Path) (child_path : Path)
    : option (list Path) :=
  chain_to_root project_roots (child_path :: parents child_path).

(** The [for path in relevant_parents] loop up to its [break]. *)
Fixpoint first_entry (git_status : gmap Path Status) (chain : list Path)
    : option Status :=
  match chain with
  | [] => None
  | path :: rest =>
      match git_status !! path with
      | Some s => Some s
      | None => first_entry git_status rest
      end
  end.

Definition aggregated (s : Status) : bool :=
  match s with Added | Modified | MergeConflict => true | _ => false end.

(** The set comprehension [child_tags]. *)
Definition child_tags (git_status : gmap Path Status) (child_path : Path)
    : gset Status :=
  list_to_set
    (omap (fun entry : Path * Status =>
             let (subpath, status) := entry in
             if aggregated status
                && String.prefix (str_path child_path) (str_path subpath)
                && bool_decide (child_path ∈ parents subpath)
             then Some status else None)
          (map_to_list git_status)).

Definition git_tags_of (tags : gset Status) : gset Tag := set_map TagGit tags.

(** The new tag set of a child; [None] is the failed assertion
    [len(child_tags) <= 1]. *)
Definition compute_new_tags (git_status : gmap Path Status)
    (chain : list Path) (child_path : Path) (old_tags : gset Tag)
    : option (gset Tag) :=
  let new_tags := filter (fun tag => is_git_tag tag = false) old_tags in
  match first_entry git_status chain with
  | Some s => Some (new_tags ∪ {[ TagGit s ]})
  | None =>
      let child_tags := child_tags git_status child_path in
      if bool_decide (MergeConflict ∈ child_tags)
      then Some (new_tags ∪ {[ TagGit MergeConflict ]})
      else if bool_decide (Modified ∈ child_tags)
      then Some (new_tags ∪ {[ TagGit Modified ]})
      else if Nat.leb (size child_tags) 1
      then Some (new_tags ∪ git_tags_of child_tags)
      else None
  end.

(** ** Sorting *)

Definition status_rank (s : option Status) : nat :=
  match s with
  | Some Added => 0 | Some Modified => 1 | Some MergeConflict => 2
  | None => 3 | Some Untracked => 4 | Some Ignored => 5
  end.

Definition git_status_of_tag (t : Tag) : option Status :=
  match t with TagGit s => Some s | _ => None end.

Definition SortKey : Type := nat * nat * string.

(** [_sorting_key]; [None] is the failed assertion [len(git_tags) < 2]. *)
Definition sorting_key (path : Path) (it : Item) : option SortKey :=
  let git_tags := omap git_status_of_tag (elements (item_tags it)) in
  match git_tags with
  | [] => Some (status_rank None, if tag_has TagDir it then 1 else 2, str_path path)
  | [s] => Some (status_rank (Some s), if tag_has TagDir it then 1 else 2, str_path path)
  | _ => None
  end.

(** Python's order on the key tuples. *)
Definition key_leb (k1 k2 : SortKey) : bool :=
  let '(r1, d1, s1) := k1 in
  let '(r2, d2, s2) := k2 in
  Nat.ltb r1 r2
  || (Nat.eqb r1 r2 && (Nat.ltb d1 d2 || (Nat.eqb d1 d2 && String.leb s1 s2))).

Section StableSort.
Context {A : Type} (key : A -> SortKey).

Fixpoint insert_sorted (x : A) (l : list A) : list A :=
  match l with
  | [] => [x]
  | y :: l' =>
      if key_leb (key x) (key y) then x :: y :: l'
      else y :: insert_sorted x l'
  end.

(** [sorted(l, key=key)]: a stable sort. *)
Fixpoint sorted (l : list A) : list A :=
  match l with
  | [] => []
  | x :: l' => insert_sorted x (sorted l')
  end.
End StableSort.

(** ** TreeSynchronizer: [open_and_refresh_directory]

    The project roots are read by the code from the children of the root
    item at each call; no call inserts, deletes or changes the path of a
    child of the root item (under the root item [new_paths] is the key set
    of [path2id]), so the set is an argument here, read once by the caller. *)

Section Reconcile.
Variable fs : FileSystem.
Variable git_statuses : gmap Path (gmap Path Status).
Variable project_roots : gset Path.

(** The loop [for path in list(new_paths - path2id.keys())], over the
    difference computed before it; a set has no order in Python, the
    model takes the order of the listing.  The widget never hands out the
    identifier of the root item, so the dummy of a new directory is built
    in place. *)
Fixpoint insert_new (dir_path : option Path) (to_insert : list Path)
    (children : list Item) (path2id : list (Path * nat)) (next : nat)
    : option (list Item * list (Path * nat) * nat) :=
  match to_insert with
  | [] => Some (children, path2id, next)
  | path :: rest =>
      if fs_is_dir fs path then
        match dir_path with
        | None => None
        | Some _ =>
            insert_new dir_path rest
              (children ++ [mkItem next (Some path) {[ TagDir ]} [dummy_item (S next)]])
              (dict_set path next path2id) (S (S next))
        end
      else
        insert_new dir_path rest
          (children ++ [mkItem next (Some path) {[ TagFile ]} []])
          (dict_set path next path2id) (S next)
  end.

(** The body of the loop over [path2id.items()], with the recursive call
    as [rec]. *)
Definition refresh_child (rec : option Path -> Item -> nat -> option (Item * nat))
    (child_path : Path) (child : Item) (next : nat) : option (Item * nat) :=
  chain ← relevant_parents project_roots child_path;
  git_status ← git_statuses !! List.last chain child_path;
  let old_tags := item_tags child in
  new_tags ← compute_new_tags git_status chain child_path old_tags;
  let child1 := if decide (old_tags = new_tags) then child else set_tags child new_tags in
  if bool_decide (TagDir ∈ new_tags) && negb (contains_dummy child1)
  then rec (Some child_path) child1 next
  else Some (child1, next).

Fixpoint refresh_children (rec : option Path -> Item -> nat -> option (Item * nat))
    (entries : list (Path * nat)) (children : list Item) (next : nat)
    : option (list Item * nat) :=
  match entries with
  | [] => Some (children, next)
  | (child_path, child_id) :: rest =>
      child ← find_item child_id children;
      '(child', next') ← refresh_child rec child_path child next;
      refresh_children rec rest (replace_item child_id child' children) next'
  end.

(** The keys of [sorted(path2id.items(), key=self._sorting_key)]. *)
Fixpoint keyed_entries (entries : list (Path * nat)) (children : list Item)
    : option (list (SortKey * nat)) :=
  match entries with
  | [] => Some []
  | (path, id) :: rest =>
      it ← find_item id children;
      k ← sorting_key path it;
      ks ← keyed_entries rest children;
      Some ((k, id) :: ks)
  end.

(** [for index, (path, child_id) in enumerate(...): self.move(child_id, dir_id, index)] *)
Fixpoint move_all (index : nat) (order : list nat) (children : list Item)
    : list Item :=
  match order with
  | [] => children
  | id :: rest => move_all (S index) rest (move_child id index children)
  end.

Fixpoint open_and_refresh_directory (fuel : nat) (dir_path : option Path)
    (dir : Item) (next : nat) {struct fuel} : option (Item * nat) :=
  match fuel with
  | 0 => None
  | S fuel' =>
      let children0 := if contains_dummy dir then [] else item_children dir in
      path2id0 ← make_path2id children0 [];
      new_paths ← match dir_path with
                  | None => if Nat.eqb (item_id dir) 0 then Some (List.map fst path2id0)
                            else None
                  | Some p => remove_dups <$> iterdir fs p
                  end;
      match dir_path, new_paths with
      | Some _, [] => insert_dummy (set_children dir children0) next
      | _, _ =>
          let deleted := List.filter (fun kv => negb (bool_decide (fst kv ∈ new_paths))) path2id0 in
          let children1 :=
            List.fold_left (fun ch kv => delete_item (snd kv) ch) deleted children0 in
          let path2id1 := List.filter (fun kv => bool_decide (fst kv ∈ new_paths)) path2id0 in
          let to_insert := List.filter (fun path => negb (dict_has path path2id1)) new_paths in
          '(children2, path2id, next2) ← insert_new dir_path to_insert children1 path2id1 next;
          '(children3, next3) ←
            refresh_children (open_and_refresh_directory fuel') path2id children2 next2;
          match dir_path with
          | None => Some (set_children dir children3, next3)
          | Some _ =>
              if decide (list_to_set (List.map item_id children3)
                         = (list_to_set (List.map snd path2id) : gset nat))
              then
                keyed ← keyed_entries path2id children3;
                Some (set_children dir
                        (move_all 0 (List.map snd (sorted fst keyed)) children3),
                      next3)
              else None
          end
      end
  end.
End Reconcile.

(** ** ProjectRegistry *)

Definition PROJECT_AUTOCLOSE_COUNT : nat := 5.

(** The tabs of the tab manager: a [FileTab] with its path, or another tab. *)
Inductive Tab :=
| FileTab (path : option Path)
| OtherTab.

Record DirectoryTree := mkTree {
  projects : list Item;                       (* the children of the root item *)
  next_id : nat;                              (* the identifier allocator *)
  git_statuses : gmap Path (gmap Path Status);
  directory_tree_projects : list string;      (* the persisted setting *)
  in_flight : list (list (nat * Path)) }.     (* snapshots handed to running probes *)

Definition with_projects (t : DirectoryTree) (ps : list Item) : DirectoryTree :=
  mkTree ps (next_id t) (git_statuses t) (directory_tree_projects t) (in_flight t).

(** The [any(...)] over the tabs. *)
Definition has_open_file (tabs : list Tab) (project_path : Path) : bool :=
  existsb (fun tab =>
             match tab with
             | FileTab (Some path) => bool_decide (project_path ∈ parents path)
             | _ => false
             end) tabs.

Fixpoint hide_loop (fs : FileSystem) (tabs : list Tab) (ids : list nat)
    (children : list Item) : option (list Item) :=
  match ids with
  | [] => Some children
  | project_id :: rest =>
      it ← find_item project_id children;
      project_path ← get_path it;
      if negb (fs_is_dir fs project_path)
         || (Nat.ltb PROJECT_AUTOCLOSE_COUNT (length children)
             && negb (has_open_file tabs project_path))
      then hide_loop fs tabs rest (delete_item project_id children)
      else hide_loop fs tabs rest children
  end.

Definition hide_old_projects (fs : FileSystem) (tabs : list Tab) (t : DirectoryTree)
    : option DirectoryTree :=
  children ← hide_loop fs tabs (rev (List.map item_id (projects t))) (projects t);
  paths ← mapM get_path children;
  Some (mkTree children (next_id t) (git_statuses t)
               (List.map str_path paths) (in_flight t)).

(** ** RefreshCoordinator *)

(** [refresh_everything] up to the dispatch: the snapshot [paths] goes to
    the probing thread and is recorded as in flight. *)
Definition refresh_everything (fs : FileSystem) (tabs : list Tab) (t : DirectoryTree)
    : option DirectoryTree :=
  t1 ← hide_old_projects fs tabs t;
  paths ← mapM (fun it => pair (item_id it) <$> get_path it) (projects t1);
  Some (mkTree (projects t1) (next_id t1) (git_statuses t1)
               (directory_tree_projects t1) (in_flight t1 ++ [paths])).

(** [thread_target]: one probe per snapshot path; [git] is what the status
    command does in each directory.  [None] is an exception in the thread,
    reported to the callback as [success = False]. *)
Fixpoint thread_target (git : Path -> RunResult) (paths : list (nat * Path))
    : option (gmap Path (gmap Path Status)) :=
  match paths with
  | [] => Some ∅
  | (_, path) :: rest =>
      m ← fst <$> run_git_status path (git path);
      ms ← thread_target git rest;
      Some (<[path := m]> ms)
  end.

(** [done_callback] of the cycle whose snapshot is [paths]; [result] is the
    map of the thread, or its traceback when [success] is false.  The
    selection colour that is updated after the reconciliation is
    presentation. *)
Definition done_callback (fs : FileSystem) (fuel : nat) (paths : list (nat * Path))
    (success : bool) (result : string + gmap Path (gmap Path Status))
    (t : DirectoryTree) : option DirectoryTree :=
  if success
     && bool_decide ((list_to_set (List.map item_id (projects t)) : gset nat)
                     = list_to_set (List.map fst paths))
  then
    match result with
    | inl _ => None
    | inr statuses =>
        roots ← mapM get_path (projects t);
        '(root, next) ← open_and_refresh_directory fs statuses (list_to_set roots) fuel
                          None (mkItem 0 None ∅ (projects t)) (next_id t);
        Some (mkTree (item_children root) next statuses
                     (directory_tree_projects t) (in_flight t))
    end
  else Some t.

(** The loop at the head of [add_project]: the identifier of the first
    project whose path is [root_path], if there is one. *)
Fixpoint find_project (root_path : Path) (l : list Item) : option (option nat) :=
  match l with
  | [] => Some None
  | it :: rest =>
      p ← get_path it;
      if decide (p = root_path) then Some (Some (item_id it))
      else find_project root_path rest
  end.

(** [add_project]; the text shown for the project is presentation. *)
Definition add_project (fs : FileSystem) (tabs : list Tab) (root_path : Path)
    (refresh : bool) (t : DirectoryTree) : option DirectoryTree :=
  found ← find_project root_path (projects t);
  match found with
  | Some project_item_id =>
      Some (with_projects t (move_child project_item_id 0 (projects t)))
  | None =>
      let project_item_id := next_id t in
      let project :=
        mkItem project_item_id (Some root_path) {[ TagDir; TagProject ]}
               [dummy_item (S project_item_id)] in
      let t1 := mkTree (insert_at 0 project (projects t)) (S (S project_item_id))
                       (git_statuses t) (directory_tree_projects t) (in_flight t) in
      t2 ← hide_old_projects fs tabs t1;
      if refresh then refresh_everything fs tabs t2 else Some t2
  end.

(** ** The rules of the specification, in its words

    These definitions follow the specification, not the code; the theorems
    compare them with the functions above. *)

Definition non_git_tags (tags : gset Tag) : gset Tag :=
  filter (fun tag => is_git_tag tag = false) tags.

Definition tag_of_status (o : option Status) : gset Tag :=
  match o with
  | Some s => {[ TagGit s ]}
  | None => ∅
  end.

(** The statuses of the entries at descendant paths of [child_path]. *)
Definition descendant_statuses (git_status : gmap Path Status) (child_path : Path)
    : gset Status :=
  list_to_set
    (omap (fun entry : Path * Status =>
             let (subpath, status) := entry in
             if bool_decide (child_path ∈ parents subpath) then Some status else None)
          (map_to_list git_status)).

(** "MergeConflict, Modified, otherwise, if exactly one distinct status type
    is present among descendants, adopt it; if none, status is None". *)
Definition spec_aggregate (found : gset Status) : option Status :=
  if bool_decide (MergeConflict ∈ found) then Some MergeConflict
  else if bool_decide (Modified ∈ found) then Some Modified
  else match elements found with
       | [s] => Some s
       | _ => None
       end.

(** The same with the third case narrowed to Added. *)
Definition aggregate_added_only (found : gset Status) : option Status :=
  if bool_decide (MergeConflict ∈ found) then Some MergeConflict
  else if bool_decide (Modified ∈ found) then Some Modified
  else if bool_decide (Added ∈ found) then Some Added
  else None.

(** The status of an output line by its two code characters, in the order
    of the specification: "[_M] or [M_] is Modified; second character space
    with first character non-space is Added; [??] is Untracked; [!!] is
    Ignored; [AA] or [UU] is MergeConflict; any other code is skipped". *)
Definition spec_classify (c0 c1 : N) : option Status :=
  if (c1 =? ord "M")%N || (c0 =? ord "M")%N then Some Modified
  else if (c1 =? ord " ")%N && negb (c0 =? ord " ")%N then Some Added
  else if (c0 =? ord "?")%N && (c1 =? ord "?")%N then Some Untracked
  else if (c0 =? ord "!")%N && (c1 =? ord "!")%N then Some Ignored
  else if ((c0 =? ord "A")%N && (c1 =? ord "A")%N)
          || ((c0 =? ord "U")%N && (c1 =? ord "U")%N) then Some MergeConflict
  else None.

(** The same with the first two cases decided by the second character
    alone: [M] there is Modified, a space there is Added. *)
Definition classify (c0 c1 : N) : option Status :=
  if (c1 =? ord "M")%N then Some Modified
  else if (c1 =? ord " ")%N then Some Added
  else if (c0 =? ord "?")%N && (c1 =? ord "?")%N then Some Untracked
  else if (c0 =? ord "!")%N && (c1 =? ord "!")%N then Some Ignored
  else if ((c0 =? ord "A")%N && (c1 =? ord "A")%N)
          || ((c0 =? ord "U")%N && (c1 =? ord "U")%N) then Some MergeConflict
  else None.

(** The entry a line stands for: the path after the two code characters and
    the separator, with the status of the code; none for a skipped line. *)
Definition line_entry (cls : N -> N -> option Status) (project_root : Path)
    (line : str) : option (Path * Status) :=
  match line !! 0, line !! 1 with
  | Some c0, Some c1 =>
      pair (joinpath project_root (fsencode (drop 3 line))) <$> cls c0 c1
  | _, _ => None
  end.

(** [evictStale] in the words of the specification: starting from the end
    of the order and scanning backward, a project is removed when its path
    no longer exists, or when the number of tracked projects still exceeds
    the cap and no open document lies under it.  [rev_todo] is what is left
    to scan, last project first; [kept] is what was scanned and kept. *)
Section EvictStale.
Context {A : Type} (exists_on_disk has_document : A -> bool) (cap : nat).

Fixpoint evict_scan (rev_todo kept : list A) : list A :=
  match rev_todo with
  | [] => kept
  | x :: rest =>
      if negb (exists_on_disk x)
         || (Nat.ltb cap (length rest + 1 + length kept) && negb (has_document x))
      then evict_scan rest kept
      else evict_scan rest (x :: kept)
  end.

Definition evictStale (tracked : list A) : list A := evict_scan (rev tracked) [].
End EvictStale.

Definition project_exists (fs : FileSystem) (project : Item) : bool :=
  match get_path project with
  | Some path => fs_is_dir fs path
  | None => false
  end.

Definition project_has_document (tabs : list Tab) (project : Item) : bool :=
  match get_path project with
  | Some path => has_open_file tabs path
  | None => false
  end.

(** ** Sample states, for the witnesses *)

Definition project_item (id : nat) (name : string) : Item :=
  mkItem id (Some ["home"; name]) {[ TagDir; TagProject ]} [dummy_item (S id)].

Definition six_projects : list Item :=
  [project_item 11 "f"; project_item 9 "e"; project_item 7 "d";
   project_item 5 "c"; project_item 3 "b"; project_item 1 "a"].

(** Every path is a directory, [/home/e] apart; nothing can be listed. *)
Definition sample_fs : FileSystem :=
  {| fs_listdir := fun _ => None;
     fs_is_dir := fun p => negb (bool_decide (p = ["home"; "e"])) |}.

Definition sample_tabs : list Tab :=
  [OtherTab; FileTab None; FileTab (Some ["home"; "b"; "src"; "main.py"])].

Definition sample_tree : DirectoryTree :=
  mkTree six_projects 13 ∅ [] [].

(** ** The registry as the widget keeps it *)

(** The item [add_project] inserts for a new project. *)
Definition new_project (id : nat) (root_path : Path) : Item :=
  mkItem id (Some root_path) {[ TagDir; TagProject ]} [dummy_item (S id)].

(** The snapshot [paths] of [refresh_everything]. *)
Definition snapshot (l : list Item) : option (list (nat * Path)) :=
  mapM (fun it => pair (item_id it) <$> get_path it) l.

(** Identifiers are distinct and were handed out by the allocator; every
    project has a path, and no path is tracked twice. *)
Definition registry_wf (t : DirectoryTree) : Prop :=
  NoDup (List.map item_id (projects t))
  ∧ Forall (fun it => item_id it < next_id t) (projects t)
  ∧ ∃ paths, mapM get_path (projects t) = Some paths ∧ NoDup paths.

(** * Properties *)

Example run_git_status_sample :
  fst <$> run_git_status ["proj"]
    (RunCompleted 0 (str_of " M src/foo.py" ++ 10%N :: str_of "?? newfile.txt" ++ 10%N ::
                     str_of "!! build/" ++ 10%N :: str_of "UU conflict.py" ++ [10%N]))
  = Some (<[ ["proj"; "src"; "foo.py"] := Modified ]>
         (<[ ["proj"; "newfile.txt"] := Untracked ]>
         (<[ ["proj"; "build"] := Ignored ]>
         (<[ ["proj"; "conflict.py"] := MergeConflict ]>
         {[ ["proj"; ".git"] := Ignored ]})))).
Proof. vm_compute. reflexivity. Qed.

(** Disequalities of concrete values, by evaluation. *)
Lemma ne_by_decide {A : Type} `{EqDecision A} (x y : A) :
  bool_decide (x = y) = false → x ≠ y.
Proof. apply bool_decide_eq_false. Qed.

(** ** Paths *)

Lemma elem_of_parents (q p : Path) :
  q ∈ parents p ↔ ∃ rest, rest ≠ [] ∧ p = q ++ rest.
Proof.
  revert q. induction p as [|c p IH]; intros q; simpl.
  - split; [intros H; inversion H|]. intros (rest & Hne & Heq).
    symmetry in Heq. apply app_eq_nil in Heq as [_ ->]. done.
  - destruct p as [|c' p'].
    + rewrite list_elem_of_singleton. split.
      * intros ->. exists [c]. done.
      * intros (rest & Hne & Heq). destruct q as [|x q]; [done|].
        simpl in Heq. injection Heq as -> Heq. symmetry in Heq.
        apply app_eq_nil in Heq as [_ ->]. done.
    + rewrite elem_of_app, list_elem_of_fmap, list_elem_of_singleton. split.
      * intros [(q' & -> & Hq')| ->].
        -- apply IH in Hq' as (rest & Hne & Heq). exists rest. split; [done|].
           simpl. by rewrite Heq.
        -- exists (c :: c' :: p'). done.
      * intros (rest & Hne & Heq). destruct q as [|x q]; [by right|]. left.
        simpl in Heq. injection Heq as -> Heq. exists q. split; [done|].
        apply IH. exists rest. done.
Qed.

Lemma append_cons (a : ascii) (s t : string) :
  String a s +:+ t = String a (s +:+ t).
Proof. reflexivity. Qed.

Lemma append_nil_r (s : string) : s +:+ "" = s.
Proof. induction s as [|a s IH]; [done|]. by rewrite append_cons, IH. Qed.

Lemma append_assoc (s t u : string) : (s +:+ t) +:+ u = s +:+ (t +:+ u).
Proof. induction s as [|a s IH]; [done|]. by rewrite !append_cons, IH. Qed.

Lemma concat_empty_cons (x : string) (l : list string) :
  String.concat "" (x :: l) = x +:+ String.concat "" l.
Proof. destruct l; simpl; [by rewrite append_nil_r|done]. Qed.

Lemma concat_empty_app (l1 l2 : list string) :
  String.concat "" (l1 ++ l2) = String.concat "" l1 +:+ String.concat "" l2.
Proof.
  induction l1 as [|x l1 IH]; [done|].
  change ((x :: l1) ++ l2) with (x :: (l1 ++ l2)).
  by rewrite !concat_empty_cons, IH, append_assoc.
Qed.

Lemma prefix_append (s t : string) : String.prefix s (s +:+ t) = true.
Proof.
  induction s as [|a s IH]; [by destruct t|].
  rewrite append_cons. simpl. destruct (ascii_dec a a); [done|congruence].
Qed.

(** The [startswith] test of the comprehension is implied by the test on
    [subpath.parents]: it is an optimisation, as the code says. *)
Lemma parents_str_prefix (child_path subpath : Path) :
  child_path ∈ parents subpath →
  String.prefix (str_path child_path) (str_path subpath) = true.
Proof.
  intros (rest & Hne & ->)%elem_of_parents.
  destruct child_path as [|c q].
  - destruct rest as [|r rest]; [done|]. unfold str_path. simpl app.
    rewrite List.map_cons, concat_empty_cons, !append_cons. simpl.
    by destruct (_ +:+ _).
  - unfold str_path. simpl app.
    change (List.map (λ c0, "/" +:+ c0) (c :: q ++ rest))
      with (List.map (λ c0, "/" +:+ c0) ((c :: q) ++ rest)).
    rewrite List.map_app, concat_empty_app. apply prefix_append.
Qed.

(** ** The status of a child *)

Lemma elem_of_descendant_statuses (git_status : gmap Path Status)
    (child_path : Path) (s : Status) :
  s ∈ descendant_statuses git_status child_path ↔
  ∃ subpath, git_status !! subpath = Some s ∧ child_path ∈ parents subpath.
Proof.
  unfold descendant_statuses. rewrite elem_of_list_to_set, list_elem_of_omap. split.
  - intros ([subpath status] & Hin & Hsome). apply elem_of_map_to_list in Hin.
    case_bool_decide; [|done]. injection Hsome as ->. eauto.
  - intros (subpath & Hlook & Hpar). exists (subpath, s). split.
    + by apply elem_of_map_to_list.
    + by rewrite bool_decide_eq_true_2.
Qed.

Lemma elem_of_child_tags (git_status : gmap Path Status)
    (child_path : Path) (s : Status) :
  s ∈ child_tags git_status child_path ↔
  aggregated s = true ∧ s ∈ descendant_statuses git_status child_path.
Proof.
  rewrite elem_of_descendant_statuses.
  unfold child_tags. rewrite elem_of_list_to_set, list_elem_of_omap. split.
  - intros ([subpath status] & Hin & Hsome). apply elem_of_map_to_list in Hin.
    destruct (aggregated status) eqn:Hagg; [|done].
    destruct (String.prefix _ _); [|done]. simpl in Hsome.
    case_bool_decide; [|done]. injection Hsome as ->. eauto.
  - intros (Hagg & subpath & Hlook & Hpar). exists (subpath, s). split.
    + by apply elem_of_map_to_list.
    + by rewrite Hagg, parents_str_prefix, bool_decide_eq_true_2.
Qed.

Lemma child_tags_rest (git_status : gmap Path Status) (child_path : Path) :
  child_tags git_status child_path ∖ {[ MergeConflict; Modified ]} ⊆ {[ Added ]}.
Proof.
  intros s [Hin Hnot]%elem_of_difference.
  apply elem_of_child_tags in Hin as [Hagg _].
  destruct s; try done; set_solver.
Qed.

Lemma child_tags_size (git_status : gmap Path Status) (child_path : Path) :
  MergeConflict ∉ child_tags git_status child_path →
  Modified ∉ child_tags git_status child_path →
  (size (child_tags git_status child_path) ≤ 1)%nat.
Proof.
  intros Hmc Hmod.
  assert (child_tags git_status child_path ⊆ {[ Added ]}) as Hsub.
  { intros s Hs. apply (child_tags_rest git_status child_path).
    apply elem_of_difference. split; [done|]. set_solver. }
  apply subseteq_size in Hsub. by rewrite size_singleton in Hsub.
Qed.

Lemma git_tags_of_child_tags (git_status : gmap Path Status) (child_path : Path) :
  MergeConflict ∉ child_tags git_status child_path →
  Modified ∉ child_tags git_status child_path →
  git_tags_of (child_tags git_status child_path)
  = if bool_decide (Added ∈ descendant_statuses git_status child_path)
    then {[ TagGit Added ]} else ∅.
Proof.
  intros Hmc Hmod. apply set_eq. intros t. unfold git_tags_of.
  rewrite elem_of_map. split.
  - intros (s & -> & Hs).
    assert (s = Added) as ->.
    { pose proof (child_tags_rest git_status child_path s) as Hr.
      rewrite elem_of_singleton in Hr. apply Hr.
      apply elem_of_difference. split; [done|]. set_solver. }
    apply elem_of_child_tags in Hs as [_ Hs].
    rewrite bool_decide_eq_true_2 by done. set_solver.
  - case_bool_decide as Hadd; [|set_solver].
    rewrite elem_of_singleton. intros ->. exists Added. split; [done|].
    by apply elem_of_child_tags.
Qed.

Lemma first_entry_closest (git_status : gmap Path Status)
    (pre post : list Path) (p : Path) (s : Status) :
  Forall (fun q => git_status !! q = None) pre →
  git_status !! p = Some s →
  first_entry git_status (pre ++ p :: post) = Some s.
Proof.
  induction 1 as [|q pre Hq _ IH]; intros Hp; simpl.
  - by rewrite Hp.
  - rewrite Hq. by apply IH.
Qed.

Lemma chain_to_root_head (project_roots : gset Path) (p : Path)
    (rest chain : list Path) :
  chain_to_root project_roots (p :: rest) = Some chain →
  ∃ tail, chain = p :: tail.
Proof.
  simpl. case_bool_decide.
  - intros [= <-]. eauto.
  - destruct (chain_to_root project_roots rest); simpl; [|done].
    intros [= <-]. eauto.
Qed.

(** A reconciliation leaves the identifier, the values and the tags of the
    directory item itself alone: it works on the children. *)
Lemma open_and_refresh_directory_item (fs : FileSystem)
    (statuses : gmap Path (gmap Path Status)) (roots : gset Path) (fuel : nat)
    (dir_path : option Path) (dir dir' : Item) (next next' : nat) :
  open_and_refresh_directory fs statuses roots fuel dir_path dir next = Some (dir', next') →
  item_id dir' = item_id dir ∧ item_values dir' = item_values dir
  ∧ item_tags dir' = item_tags dir.
Proof.
  destruct fuel as [|fuel]; [done|]. simpl.
  destruct (make_path2id _ _) as [path2id0|]; [|done]. simpl.
  destruct (match dir_path with
            | Some p => remove_dups <$> iterdir fs p
            | None => _ end) as [new_paths|]; [|done]. simpl.
  assert (∀ children3 next3 keyed,
            Some (set_children dir children3, next3) = Some (dir', next')
            ∨ (keyed : option (list (SortKey * nat))) ≫= (λ ks,
                 Some (set_children dir (move_all 0 (List.map snd (sorted fst ks)) children3),
                       next3)) = Some (dir', next') →
            item_id dir' = item_id dir ∧ item_values dir' = item_values dir
            ∧ item_tags dir' = item_tags dir) as Hset.
  { intros children3 next3 keyed [H|H].
    - by injection H as <- <-.
    - destruct keyed; [|done]. by injection H as <- <-. }
  destruct dir_path as [p|], new_paths as [|np nps];
    try (destruct (insert_new _ _ _ _ _ _) as [[[children2 path2id] next2]|]; [|done];
         simpl;
         destruct (refresh_children _ _ _ _ _ _) as [[children3 next3]|]; [|done];
         simpl; try (case_decide; [|done]); intros Hres;
         first [ apply (Hset children3 next3 None); by left
               | apply (Hset children3 next3 (keyed_entries path2id children3));
                 by right ]).
  unfold insert_dummy. destruct (Nat.eqb _ _); [done|]. by intros [= <- <-].
Qed.

(** C1 (as amended): for a child with no direct entry along its chain, the
    status is aggregated from the entries at descendant paths whose status
    is Added, Modified or MergeConflict only: MergeConflict if a descendant
    has it, else Modified if a descendant has it, else Added if a descendant
    has it, else no status.  Untracked and Ignored descendants count for
    nothing. *)
Theorem aggregated_status_added_only (git_status : gmap Path Status)
    (chain : list Path) (child_path : Path) (old_tags : gset Tag) :
  first_entry git_status chain = None →
  compute_new_tags git_status chain child_path old_tags
  = Some (non_git_tags old_tags
          ∪ tag_of_status
              (aggregate_added_only (descendant_statuses git_status child_path))).
Proof.
  intros Hnone. unfold compute_new_tags, aggregate_added_only. rewrite Hnone.
  fold (non_git_tags old_tags).
  assert (∀ s, aggregated s = true →
               s ∈ child_tags git_status child_path
               ↔ s ∈ descendant_statuses git_status child_path) as Hiff.
  { intros s Hs. rewrite elem_of_child_tags. naive_solver. }
  rewrite <- (bool_decide_ext _ _ (Hiff MergeConflict eq_refl)).
  rewrite <- (bool_decide_ext _ _ (Hiff Modified eq_refl)).
  case_bool_decide as Hmc; [done|].
  case_bool_decide as Hmod; [done|].
  pose proof (child_tags_size git_status child_path Hmc Hmod) as Hsize.
  apply Nat.leb_le in Hsize. rewrite Hsize.
  rewrite (git_tags_of_child_tags git_status child_path Hmc Hmod).
  by case_bool_decide.
Qed.

Lemma aggregated_status_added_only_witness :
  compute_new_tags
    {[ ["proj"; "d"; "a"] := Untracked; ["proj"; "d"; "sub"; "b"] := Added ]}
    [["proj"; "d"]; ["proj"]] ["proj"; "d"] {[ TagDir; TagGit Ignored ]}
  = Some (non_git_tags {[ TagDir; TagGit Ignored ]}
          ∪ tag_of_status
              (aggregate_added_only
                 (descendant_statuses
                    {[ ["proj"; "d"; "a"] := Untracked;
                       ["proj"; "d"; "sub"; "b"] := Added ]}
                    ["proj"; "d"]))).
Proof. apply aggregated_status_added_only. vm_compute. reflexivity. Defined.

(** C1 as stated fails: two Untracked descendants are one distinct status
    type, the specification adopts it, the code gives the directory no
    status. *)
Lemma aggregated_status_counterexample :
  let git_status : gmap Path Status :=
    {[ ["proj"; "d"; "a"] := Untracked; ["proj"; "d"; "b"] := Untracked ]} in
  let chain := [["proj"; "d"]; ["proj"]] in
  first_entry git_status chain = None
  ∧ descendant_statuses git_status ["proj"; "d"] = {[ Untracked ]}
  ∧ spec_aggregate (descendant_statuses git_status ["proj"; "d"]) = Some Untracked
  ∧ compute_new_tags git_status chain ["proj"; "d"] {[ TagDir ]} = Some {[ TagDir ]}
  ∧ compute_new_tags git_status chain ["proj"; "d"] {[ TagDir ]}
    ≠ Some (non_git_tags {[ TagDir ]}
            ∪ tag_of_status
                (spec_aggregate (descendant_statuses git_status ["proj"; "d"]))).
Proof.
  repeat split; try (vm_compute; reflexivity).
  apply ne_by_decide. vm_compute. reflexivity.
Qed.

(** C10: in the aggregation branch the set [child_tags] holds nothing but
    Added, Modified and MergeConflict; once MergeConflict and Modified are
    ruled out what is left is within {Added}, so the assertion
    [len(child_tags) <= 1] holds and the new tags are computed; Untracked
    and Ignored descendants never give an aggregated tag. *)
Theorem child_tags_assertion_holds (git_status : gmap Path Status)
    (chain : list Path) (child_path : Path) (old_tags : gset Tag) :
  first_entry git_status chain = None →
  let tags := child_tags git_status child_path in
  tags ⊆ {[ Added; Modified; MergeConflict ]}
  ∧ tags ∖ {[ MergeConflict; Modified ]} ⊆ {[ Added ]}
  ∧ (MergeConflict ∉ tags → Modified ∉ tags → (size tags ≤ 1)%nat)
  ∧ (Untracked ∉ tags) ∧ (Ignored ∉ tags)
  ∧ ∃ new_tags,
      compute_new_tags git_status chain child_path old_tags = Some new_tags
      ∧ (TagGit Untracked ∉ new_tags) ∧ (TagGit Ignored ∉ new_tags).
Proof.
  intros Hnone tags.
  assert (∀ s, s ∈ tags → aggregated s = true) as Hagg.
  { intros s Hs. by apply elem_of_child_tags in Hs as [? _]. }
  split; [|split; [|split; [|split; [|split]]]].
  - intros s Hs. apply Hagg in Hs. destruct s; try done; set_solver.
  - apply child_tags_rest.
  - apply child_tags_size.
  - intros Hin. by apply Hagg in Hin.
  - intros Hin. by apply Hagg in Hin.
  - eexists. split; [by apply aggregated_status_added_only|].
    assert (∀ s, aggregated s = false →
                 TagGit s ∉ non_git_tags old_tags
                            ∪ tag_of_status
                                (aggregate_added_only
                                   (descendant_statuses git_status child_path))) as Hno.
    { intros s Hs [Hin|Hin]%elem_of_union.
      - unfold non_git_tags in Hin. apply elem_of_filter in Hin as [Hgit _]. done.
      - unfold aggregate_added_only in Hin.
        repeat case_bool_decide; simpl in Hin;
          try (apply elem_of_singleton in Hin; injection Hin as ->; done).
        by apply not_elem_of_empty in Hin. }
    split; by apply Hno.
Qed.

Lemma child_tags_assertion_holds_witness :
  let git_status : gmap Path Status :=
    {[ ["proj"; "d"; "a"] := Untracked; ["proj"; "d"; "b"] := Ignored;
       ["proj"; "d"; "c"] := Added ]} in
  let tags := child_tags git_status ["proj"; "d"] in
  tags ⊆ {[ Added; Modified; MergeConflict ]}
  ∧ tags ∖ {[ MergeConflict; Modified ]} ⊆ {[ Added ]}
  ∧ (MergeConflict ∉ tags → Modified ∉ tags → (size tags ≤ 1)%nat)
  ∧ (Untracked ∉ tags) ∧ (Ignored ∉ tags)
  ∧ ∃ new_tags,
      compute_new_tags git_status [["proj"; "d"]; ["proj"]] ["proj"; "d"] {[ TagDir ]}
      = Some new_tags
      ∧ (TagGit Untracked ∉ new_tags) ∧ (TagGit Ignored ∉ new_tags).
Proof.
  apply (child_tags_assertion_holds
           {[ ["proj"; "d"; "a"] := Untracked; ["proj"; "d"; "b"] := Ignored;
              ["proj"; "d"; "c"] := Added ]}
           [["proj"; "d"]; ["proj"]] ["proj"; "d"] {[ TagDir ]}).
  vm_compute. reflexivity.
Defined.

(** C3: when some path of the chain (the child, then its parents up to the
    project root) has an entry in the status map of the project, the child
    gets the status of the first such path; an entry at the child's own
    path is that first one, so it wins over an ancestor's entry and over
    the aggregation from descendants.  The reconciled child carries that
    status. *)
Theorem closest_entry_wins (fs : FileSystem)
    (statuses : gmap Path (gmap Path Status)) (roots : gset Path) (fuel : nat)
    (child_path : Path) (child : Item) (next : nat)
    (chain pre post : list Path) (p : Path)
    (git_status : gmap Path Status) (s : Status) :
  relevant_parents roots child_path = Some chain →
  statuses !! List.last chain child_path = Some git_status →
  chain = pre ++ p :: post →
  Forall (fun q => git_status !! q = None) pre →
  git_status !! p = Some s →
  compute_new_tags git_status chain child_path (item_tags child)
  = Some (non_git_tags (item_tags child) ∪ {[ TagGit s ]})
  ∧ (∀ s0, git_status !! child_path = Some s0 → s0 = s)
  ∧ (∀ child' next',
       refresh_child statuses roots (open_and_refresh_directory fs statuses roots fuel)
                     child_path child next = Some (child', next') →
       item_tags child' = non_git_tags (item_tags child) ∪ {[ TagGit s ]}).
Proof.
  intros Hchain Hstatus -> Hpre Hp.
  assert (compute_new_tags git_status (pre ++ p :: post) child_path (item_tags child)
          = Some (non_git_tags (item_tags child) ∪ {[ TagGit s ]})) as Hnew.
  { unfold compute_new_tags. by rewrite (first_entry_closest _ _ _ _ _ Hpre Hp). }
  split; [done|]. split.
  - intros s0 Hs0. apply chain_to_root_head in Hchain as [tail Htail].
    destruct pre as [|q pre]; simpl in Htail.
    + injection Htail as -> _. congruence.
    + injection Htail as -> _. apply Forall_cons in Hpre as [Hq _]. congruence.
  - intros child' next'. unfold refresh_child. rewrite Hchain. simpl.
    rewrite Hstatus. simpl. rewrite Hnew. simpl.
    set (child1 := if decide (item_tags child = _) then child else _).
    assert (item_tags child1 = non_git_tags (item_tags child) ∪ {[ TagGit s ]}) as Htags.
    { subst child1. by case_decide. }
    destruct (_ && _).
    + intros Hrec. apply open_and_refresh_directory_item in Hrec as (_ & _ & ->). done.
    + by intros [= <- _].
Qed.

Lemma closest_entry_wins_witness :
  let statuses : gmap Path (gmap Path Status) :=
    {[ ["proj"] := {[ ["proj"; "d"] := Ignored; ["proj"; "d"; "f"; "x"] := Modified ]} ]} in
  let child := mkItem 7 (Some ["proj"; "d"; "f"]) {[ TagDir; TagGit Added ]} [dummy_item 8] in
  compute_new_tags {[ ["proj"; "d"] := Ignored; ["proj"; "d"; "f"; "x"] := Modified ]}
                   [["proj"; "d"; "f"]; ["proj"; "d"]; ["proj"]] ["proj"; "d"; "f"]
                   (item_tags child)
  = Some (non_git_tags (item_tags child) ∪ {[ TagGit Ignored ]})
  ∧ (∀ s0, ({[ ["proj"; "d"] := Ignored; ["proj"; "d"; "f"; "x"] := Modified ]}
              : gmap Path Status) !! ["proj"; "d"; "f"] = Some s0 → s0 = Ignored)
  ∧ (∀ child' next',
       refresh_child statuses {[ ["proj"] ]}
         (open_and_refresh_directory
            {| fs_listdir := fun _ => None; fs_is_dir := fun _ => false |}
            statuses {[ ["proj"] ]} 3)
         ["proj"; "d"; "f"] child 9 = Some (child', next') →
       item_tags child' = non_git_tags (item_tags child) ∪ {[ TagGit Ignored ]}).
Proof.
  intros statuses child.
  apply (closest_entry_wins _ statuses {[ ["proj"] ]} 3 ["proj"; "d"; "f"] child 9
           [["proj"; "d"; "f"]; ["proj"; "d"]; ["proj"]]
           [["proj"; "d"; "f"]] [["proj"]] ["proj"; "d"]
           {[ ["proj"; "d"] := Ignored; ["proj"; "d"; "f"; "x"] := Modified ]} Ignored).
  - vm_compute. reflexivity.
  - vm_compute. reflexivity.
  - reflexivity.
  - repeat constructor.
  - vm_compute. reflexivity.
Defined.

(** ** StatusProbe *)

Lemma take_2_code (c0 c1 d0 d1 : N) (rest : str) :
  bool_decide (take 2 (c0 :: c1 :: rest) = [d0; d1]) = ((c0 =? d0)%N && (c1 =? d1)%N).
Proof.
  simpl. destruct (N.eqb_spec c0 d0) as [->|Hne0], (N.eqb_spec c1 d1) as [->|Hne1]; simpl.
  - by rewrite bool_decide_eq_true.
  - rewrite bool_decide_eq_false. by intros [=].
  - rewrite bool_decide_eq_false. by intros [=].
  - rewrite bool_decide_eq_false. by intros [=].
Qed.

Lemma status_line_entry (project_root : Path) (result : gmap Path Status)
    (line : str) :
  2 ≤ length line →
  status_line project_root result line
  = Some (match line_entry classify project_root line with
          | Some (path, s) => <[path := s]> result
          | None => result
          end,
          match line_entry classify project_root line with
          | Some _ => []
          | None => [line]
          end).
Proof.
  destruct line as [|c0 [|c1 rest]]; simpl; try lia. intros _.
  unfold status_line, line_entry, classify.
  change ((c0 :: c1 :: rest) !! 1) with (Some c1).
  change ((c0 :: c1 :: rest) !! 0) with (Some c0).
  change (str_of "??") with [ord "?"; ord "?"].
  change (str_of "!!") with [ord "!"; ord "!"].
  change (str_of "AA") with [ord "A"; ord "A"].
  change (str_of "UU") with [ord "U"; ord "U"].
  rewrite !take_2_code.
  destruct (c1 =? ord "M")%N; [done|].
  destruct (c1 =? ord " ")%N; [done|].
  destruct ((c0 =? ord "?")%N && (c1 =? ord "?")%N); [done|].
  destruct ((c0 =? ord "!")%N && (c1 =? ord "!")%N); [done|].
  by destruct ((c0 =? ord "A")%N && (c1 =? ord "A")%N || (c0 =? ord "U")%N && (c1 =? ord "U")%N).
Qed.

Lemma status_lines_spec (project_root : Path) (lines : list str) :
  Forall (fun line => 2 ≤ length line) lines →
  ∀ (result : gmap Path Status) (warnings : list str),
  ∃ result',
    status_lines project_root result warnings lines
    = Some (result',
            warnings ++ List.filter
                          (fun line => bool_decide (line_entry classify project_root line = None))
                          lines)
    ∧ (∀ path, is_Some (result' !! path) ↔
               is_Some (result !! path)
               ∨ ∃ line s, line ∈ lines
                           ∧ line_entry classify project_root line = Some (path, s))
    ∧ (∀ pre line post path s,
         lines = pre ++ line :: post →
         line_entry classify project_root line = Some (path, s) →
         (∀ l s', l ∈ post → line_entry classify project_root l ≠ Some (path, s')) →
         result' !! path = Some s)
    ∧ (∀ path,
         (∀ l s', l ∈ lines → line_entry classify project_root l ≠ Some (path, s')) →
         result' !! path = result !! path).
Proof.
  induction 1 as [|line rest Hlen _ IH]; intros result warnings.
  - exists result. simpl. rewrite app_nil_r. split; [done|]. split; [|split].
    + intros path. split; [by left|]. intros [?|(l & s & Hl & _)]; [done|].
      by apply elem_of_nil in Hl.
    + intros [|??] ?????; discriminate.
    + done.
  - simpl. rewrite (status_line_entry _ _ _ Hlen).
    set (result1 := match line_entry classify project_root line with
                    | Some (path, s) => <[path := s]> result
                    | None => result
                    end).
    set (w := match line_entry classify project_root line with
              | Some _ => []
              | None => [line]
              end).
    destruct (IH result1 (warnings ++ w)) as (result' & Hrun & Hdom & Hlast & Hkeep).
    assert (∀ path,
              (∀ s', line_entry classify project_root line ≠ Some (path, s')) →
              result1 !! path = result !! path) as Hstep.
    { intros path Hno. subst result1.
      destruct (line_entry classify project_root line) as [[path0 s0]|]; [|done].
      apply lookup_insert_ne. intros ->. by apply (Hno s0). }
    exists result'. split; [|split; [|split]].
    + transitivity (status_lines project_root result1 (warnings ++ w) rest); [done|].
      rewrite Hrun. f_equal. f_equal. rewrite <- app_assoc. f_equal. subst w.
      destruct (line_entry classify project_root line); by simpl.
    + intros path. rewrite Hdom. split.
      * intros [Hsome|(l & s & Hl & He)].
        -- subst result1.
           destruct (line_entry classify project_root line) as [[path0 s0]|] eqn:He;
             [|by left].
           destruct (decide (path0 = path)) as [->|Hne].
           ++ right. exists line, s0. split; [left|done].
           ++ left. by rewrite lookup_insert_ne in Hsome.
        -- right. exists l, s. split; [by right|done].
      * intros [Hsome|(l & s & Hl & He)].
        -- left. subst result1.
           destruct (line_entry classify project_root line) as [[path0 s0]|]; [|done].
           destruct (decide (path0 = path)) as [->|Hne].
           ++ rewrite lookup_insert_eq. eauto.
           ++ by rewrite lookup_insert_ne.
        -- apply elem_of_cons in Hl as [->|Hl].
           ++ left. subst result1. rewrite He, lookup_insert_eq. eauto.
           ++ right. eauto.
    + intros pre l post path s Heq He Hpost. destruct pre as [|l0 pre].
      * injection Heq as <- <-. rewrite (Hkeep path Hpost).
        subst result1. by rewrite He, lookup_insert_eq.
      * injection Heq as <- ->. by apply (Hlast pre l post path s).
    + intros path Hno. rewrite Hkeep.
      * apply Hstep. intros s'. apply Hno. left.
      * intros l s' Hl. apply Hno. by right.
Qed.

Lemma status_lines_short_line (project_root : Path) (lines : list str)
    (line : str) :
  line ∈ lines → length line < 2 →
  ∀ result warnings, status_lines project_root result warnings lines = None.
Proof.
  intros Hin Hlen. induction lines as [|l rest IH]; intros result warnings.
  - by apply elem_of_nil in Hin.
  - simpl. apply elem_of_cons in Hin as [<-|Hin].
    + unfold status_line. destruct line as [|c0 [|c1 tl]]; simpl in *; try done. lia.
    + destruct (status_line project_root result l) as [[result' w]|]; [|done].
      by apply IH.
Qed.

(** C2 (as amended): the status command has exited with status zero and
    its output was decoded; the lines are those of [str.splitlines].  If one
    of them has fewer than two characters, [line[1]] raises and
    [run_git_status] returns nothing.  Otherwise it returns the map that
    starts from the forced entry of the metadata directory ([root/.git] is
    Ignored) and takes, for each path, the status of the last output line
    naming it, a line being classified by its code: second character [M] is
    Modified whatever the first character; otherwise second character space
    is Added whatever the first character ([M] included); [??] is Untracked;
    [!!] is Ignored; [AA] and [UU] are MergeConflict; any other line is
    logged and skipped.  The key [root/.git] is always in the returned map,
    and it is Ignored unless an output line names that very path. *)
Theorem run_git_status_parse (project_root : Path) (stdout : str) :
  (Exists (fun line => length line < 2) (splitlines stdout) →
   run_git_status project_root (RunCompleted 0 stdout) = None)
  ∧ (Forall (fun line => 2 ≤ length line) (splitlines stdout) →
     ∃ result warnings,
       run_git_status project_root (RunCompleted 0 stdout) = Some (result, warnings)
       ∧ is_Some (result !! joinpath project_root ".git")
       ∧ ((∀ l s', l ∈ splitlines stdout →
                   line_entry classify project_root l
                   ≠ Some (joinpath project_root ".git", s')) →
          result !! joinpath project_root ".git" = Some Ignored)
       ∧ (∀ path, is_Some (result !! path) ↔
                  path = joinpath project_root ".git"
                  ∨ ∃ line s, line ∈ splitlines stdout
                              ∧ line_entry classify project_root line = Some (path, s))
       ∧ (∀ pre line post path s,
            splitlines stdout = pre ++ line :: post →
            line_entry classify project_root line = Some (path, s) →
            (∀ l s', l ∈ post → line_entry classify project_root l ≠ Some (path, s')) →
            result !! path = Some s)
       ∧ warnings
         = List.filter (fun line => bool_decide (line_entry classify project_root line = None))
                       (splitlines stdout)).
Proof.
  split.
  { intros (line & Hin & Hlen)%Exists_exists. unfold run_git_status. simpl.
    by apply (status_lines_short_line project_root _ line). }
  intros Hlen. unfold run_git_status. simpl.
  destruct (status_lines_spec project_root (splitlines stdout) Hlen
              {[ joinpath project_root ".git" := Ignored ]} [])
    as (result & Hrun & Hdom & Hlast & Hkeep).
  exists result, (List.filter
                    (fun line => bool_decide (line_entry classify project_root line = None))
                    (splitlines stdout)).
  split; [done|]. split; [|split; [|split; [|split]]].
  - apply Hdom. left. by rewrite lookup_singleton_eq.
  - intros Hno. by rewrite (Hkeep _ Hno), lookup_singleton_eq.
  - intros path. rewrite Hdom. split.
    + intros [Hsome|?]; [|by right]. left.
      destruct (decide (joinpath project_root ".git" = path)) as [->|Hne]; [done|].
      rewrite lookup_singleton_ne in Hsome by done. by destruct Hsome.
    + intros [->|?]; [|by right]. left. by rewrite lookup_singleton_eq.
  - done.
  - done.
Qed.

Lemma run_git_status_parse_witness :
  let cut := str_of "?? a" ++ 8232%N :: str_of "b" ++ [10%N] in
  let stdout :=
    str_of " M src/foo.py" ++ 10%N :: str_of "M  bar.py" ++ 10%N ::
    str_of "?? caf" ++ 233%N :: str_of ".txt" ++ 10%N :: str_of "XY odd" ++ [10%N] in
  (Exists (fun line => length line < 2) (splitlines cut)
   ∧ run_git_status ["proj"] (RunCompleted 0 cut) = None)
  ∧ (Forall (fun line => 2 ≤ length line) (splitlines stdout)
     ∧ ∃ result warnings,
       run_git_status ["proj"] (RunCompleted 0 stdout) = Some (result, warnings)
       ∧ is_Some (result !! joinpath ["proj"] ".git")
       ∧ ((∀ l s', l ∈ splitlines stdout →
                   line_entry classify ["proj"] l ≠ Some (joinpath ["proj"] ".git", s')) →
          result !! joinpath ["proj"] ".git" = Some Ignored)
       ∧ (∀ path, is_Some (result !! path) ↔
                  path = joinpath ["proj"] ".git"
                  ∨ ∃ line s, line ∈ splitlines stdout
                              ∧ line_entry classify ["proj"] line = Some (path, s))
       ∧ (∀ pre line post path s,
            splitlines stdout = pre ++ line :: post →
            line_entry classify ["proj"] line = Some (path, s) →
            (∀ l s', l ∈ post → line_entry classify ["proj"] l ≠ Some (path, s')) →
            result !! path = Some s)
       ∧ warnings
         = List.filter (fun line => bool_decide (line_entry classify ["proj"] line = None))
                       (splitlines stdout)).
Proof.
  intros cut stdout.
  assert (Exists (fun line => length line < 2) (splitlines cut)) as Hcut.
  { vm_compute. apply Exists_cons_tl, Exists_cons_hd. lia. }
  assert (Forall (fun line => 2 ≤ length line) (splitlines stdout)) as Hlen.
  { vm_compute. repeat constructor. }
  split; (split; [done|]).
  - by apply (proj1 (run_git_status_parse ["proj"] cut)).
  - by apply (proj2 (run_git_status_parse ["proj"] stdout)).
Defined.

(** C2 as stated fails on a staged modification: the line [M  foo.py] has
    code [M_], Modified for the specification, and the code files it under
    Added. *)
Lemma run_git_status_counterexample :
  spec_classify (ord "M") (ord " ") = Some Modified
  ∧ line_entry spec_classify ["proj"] (str_of "M  foo.py")
    = Some (["proj"; "foo.py"], Modified)
  ∧ fst <$> run_git_status ["proj"] (RunCompleted 0 (str_of "M  foo.py"))
    = Some {[ ["proj"; ".git"] := Ignored; ["proj"; "foo.py"] := Added ]}
  ∧ ∀ result warnings,
      run_git_status ["proj"] (RunCompleted 0 (str_of "M  foo.py"))
      = Some (result, warnings) →
      result !! ["proj"; "foo.py"] = Some Added
      ∧ result !! ["proj"; "foo.py"]
        ≠ snd <$> line_entry spec_classify ["proj"] (str_of "M  foo.py").
Proof.
  split; [reflexivity|]. split; [vm_compute; reflexivity|].
  split; [vm_compute; reflexivity|].
  intros result warnings Hrun.
  assert (fst <$> run_git_status ["proj"] (RunCompleted 0 (str_of "M  foo.py"))
          = Some result) as Hfst.
  { by rewrite Hrun. }
  assert (result = {[ ["proj"; ".git"] := Ignored; ["proj"; "foo.py"] := Added ]}) as ->.
  { vm_compute in Hfst. injection Hfst as <-. vm_compute. reflexivity. }
  split; [vm_compute; reflexivity|].
  apply ne_by_decide. vm_compute. reflexivity.
Qed.

(** ** Items addressed by identifier *)

Lemma elem_of_rev {A : Type} (x : A) (l : list A) : x ∈ rev l ↔ x ∈ l.
Proof. rewrite !list_elem_of_In. symmetry. apply in_rev. Qed.

Lemma find_item_here (pre post : list Item) (x : Item) :
  item_id x ∉ List.map item_id pre →
  find_item (item_id x) (pre ++ x :: post) = Some x.
Proof.
  unfold find_item. induction pre as [|y pre IH]; simpl; intros Hnot.
  - by rewrite Nat.eqb_refl.
  - destruct (Nat.eqb_spec (item_id y) (item_id x)) as [Heq|Hne].
    + exfalso. apply Hnot. rewrite Heq. left.
    + apply IH. intros Hin. apply Hnot. by right.
Qed.

Lemma delete_item_absent (id : nat) (l : list Item) :
  id ∉ List.map item_id l → delete_item id l = l.
Proof.
  unfold delete_item. induction l as [|y l IH]; simpl; intros Hnot; [done|].
  destruct (Nat.eqb_spec (item_id y) id) as [Heq|Hne]; simpl.
  - exfalso. apply Hnot. rewrite Heq. left.
  - f_equal. apply IH. intros Hin. apply Hnot. by right.
Qed.

Lemma delete_item_here (pre post : list Item) (x : Item) :
  NoDup (List.map item_id (pre ++ x :: post)) →
  delete_item (item_id x) (pre ++ x :: post) = pre ++ post.
Proof.
  rewrite List.map_app. simpl. intros Hnd.
  apply NoDup_app in Hnd as (Hpre & Hdisj & Hpost).
  apply NoDup_cons in Hpost as [Hx Hpost].
  unfold delete_item. rewrite List.filter_app. simpl. rewrite Nat.eqb_refl. simpl.
  fold (delete_item (item_id x) pre). fold (delete_item (item_id x) post).
  rewrite !delete_item_absent; [done|done|].
  intros Hin. apply (Hdisj _ Hin). left.
Qed.

(** ** ProjectRegistry: eviction *)

Section EvictStaleFacts.
Context {A : Type} (exists_on_disk has_document : A -> bool) (cap : nat).

Local Abbreviation scan := (evict_scan exists_on_disk has_document cap).

Lemma evict_scan_sublist (rev_todo kept : list A) :
  sublist (scan rev_todo kept) (rev rev_todo ++ kept).
Proof.
  revert kept. induction rev_todo as [|x rest IH]; intros kept; simpl; [done|].
  rewrite <- app_assoc. simpl. destruct (_ || _).
  - etrans; [apply IH|]. apply sublist_app; [done|]. by apply sublist_cons.
  - apply IH.
Qed.

Lemma evict_scan_kept (rev_todo kept : list A) (x : A) :
  x ∈ kept → x ∈ scan rev_todo kept.
Proof.
  revert kept. induction rev_todo as [|y rest IH]; intros kept Hx; simpl; [done|].
  destruct (_ || _); apply IH; [done|by right].
Qed.

Lemma evict_scan_exists (rev_todo kept : list A) :
  Forall (fun x => exists_on_disk x = true) kept →
  Forall (fun x => exists_on_disk x = true) (scan rev_todo kept).
Proof.
  revert kept. induction rev_todo as [|y rest IH]; intros kept Hk; simpl; [done|].
  destruct (exists_on_disk y) eqn:Hy; simpl.
  - destruct (_ && _); apply IH; [done|]. by constructor.
  - by apply IH.
Qed.

Lemma evict_scan_document (rev_todo kept : list A) (x : A) :
  x ∈ rev_todo → exists_on_disk x = true → has_document x = true →
  x ∈ scan rev_todo kept.
Proof.
  revert kept. induction rev_todo as [|y rest IH]; intros kept Hx He Hd; simpl.
  - by apply elem_of_nil in Hx.
  - apply elem_of_cons in Hx as [<-|Hx].
    + rewrite He, Hd, andb_false_r. simpl. apply evict_scan_kept. left.
    + destruct (_ || _); by apply IH.
Qed.

Lemma evict_scan_cap (rev_todo kept : list A) :
  length rev_todo + length kept ≤ cap
  ∨ Forall (fun x => has_document x = true) kept →
  length (scan rev_todo kept) ≤ cap
  ∨ Forall (fun x => has_document x = true) (scan rev_todo kept).
Proof.
  revert kept. induction rev_todo as [|y rest IH]; intros kept Hinv; simpl; [done|].
  destruct (negb (exists_on_disk y)
            || Nat.ltb cap (length rest + 1 + length kept) && negb (has_document y))
    eqn:Hcond.
  - apply IH. destruct Hinv as [Hle|Hall]; [left; simpl in Hle; lia|by right].
  - apply IH. apply orb_false_iff in Hcond as [_ Hcond].
    apply andb_false_iff in Hcond as [Hlt|Hdoc].
    + left. apply Nat.ltb_ge in Hlt. simpl. lia.
    + apply negb_false_iff in Hdoc. destruct Hinv as [Hle|Hall].
      * left. simpl in *. lia.
      * right. by constructor.
Qed.

Lemma evict_scan_within_cap (rev_todo kept : list A) :
  Forall (fun x => exists_on_disk x = true) rev_todo →
  length rev_todo + length kept ≤ cap →
  scan rev_todo kept = rev rev_todo ++ kept.
Proof.
  revert kept. induction rev_todo as [|y rest IH]; intros kept Hall Hle; simpl; [done|].
  apply Forall_cons in Hall as [Hy Hall]. rewrite Hy. simpl.
  replace (Nat.ltb cap (length rest + 1 + length kept)) with false.
  - simpl. rewrite IH; [|done|simpl in *; lia]. by rewrite <- app_assoc.
  - symmetry. apply Nat.ltb_ge. simpl in Hle. lia.
Qed.
End EvictStaleFacts.

Lemma hide_loop_scan (fs : FileSystem) (tabs : list Tab) (todo kept : list Item) :
  NoDup (List.map item_id (todo ++ kept)) →
  Forall (fun it => is_Some (get_path it)) todo →
  hide_loop fs tabs (rev (List.map item_id todo)) (todo ++ kept)
  = Some (evict_scan (project_exists fs) (project_has_document tabs)
                     PROJECT_AUTOCLOSE_COUNT (rev todo) kept).
Proof.
  revert kept. induction todo as [|x todo IH] using rev_ind; intros kept Hnd Hpaths.
  - done.
  - rewrite List.map_app, !rev_app_distr. simpl.
    apply Forall_app in Hpaths as [Hpaths Hx].
    apply Forall_cons in Hx as [[path Hpath] _].
    rewrite <- app_assoc in Hnd |- *. simpl in Hnd |- *.
    rewrite find_item_here.
    2:{ rewrite List.map_app in Hnd. apply NoDup_app in Hnd as (_ & Hdisj & _).
        intros Hin. apply (Hdisj _ Hin). left. }
    simpl. rewrite Hpath. simpl.
    unfold project_exists, project_has_document. rewrite Hpath.
    rewrite length_app, length_rev. simpl.
    replace (length todo + S (length kept)) with (length todo + 1 + length kept) by lia.
    destruct (_ || _).
    + rewrite delete_item_here by done. apply IH; [|done].
      rewrite List.map_app in Hnd |- *. simpl in Hnd.
      apply NoDup_app in Hnd as (Hpre & Hdisj & Hpost).
      apply NoDup_cons in Hpost as [_ Hpost].
      apply NoDup_app. split; [done|]. split; [|done].
      intros id Hin Hin'. apply (Hdisj _ Hin). by right.
    + by apply (IH (x :: kept)).
Qed.

(** X1: an eviction check is one backward scan of the tracked projects that
    removes a project exactly when its path is no directory on disk, or
    when the number of projects still tracked at that moment exceeds the
    cap (5) and no open document lies under it.  The order of the others is
    kept; a project that exists and has an open document under it is never
    removed; at the end either the cap is satisfied or every project left
    has an open document; six existing projects with no open document
    under the least recently used one lose exactly that one.  The list is
    then persisted. *)
Theorem hide_old_projects_evicts (fs : FileSystem) (tabs : list Tab) (t : DirectoryTree) :
  NoDup (List.map item_id (projects t)) →
  Forall (fun it => is_Some (get_path it)) (projects t) →
  let kept := evictStale (project_exists fs) (project_has_document tabs)
                         PROJECT_AUTOCLOSE_COUNT (projects t) in
  (∃ paths,
     mapM get_path kept = Some paths
     ∧ hide_old_projects fs tabs t
       = Some (mkTree kept (next_id t) (git_statuses t)
                      (List.map str_path paths) (in_flight t)))
  ∧ sublist kept (projects t)
  ∧ (∀ it, it ∈ kept → project_exists fs it = true)
  ∧ (∀ it, it ∈ projects t → project_exists fs it = true →
           project_has_document tabs it = true → it ∈ kept)
  ∧ (length kept ≤ PROJECT_AUTOCLOSE_COUNT
     ∨ ∀ it, it ∈ kept → project_has_document tabs it = true)
  ∧ (∀ rest lru,
       projects t = rest ++ [lru] →
       length (projects t) = 6 →
       (∀ it, it ∈ projects t → project_exists fs it = true) →
       project_has_document tabs lru = false →
       kept = rest).
Proof.
  intros Hnd Hpaths kept.
  assert (sublist kept (projects t)) as Hsub.
  { pose proof (evict_scan_sublist (project_exists fs) (project_has_document tabs)
                  PROJECT_AUTOCLOSE_COUNT (rev (projects t)) []) as H.
    by rewrite rev_involutive, app_nil_r in H. }
  split; [|split; [done|split; [|split; [|split]]]].
  - assert (is_Some (mapM get_path kept)) as [paths Hmap].
    { apply mapM_is_Some. apply Forall_forall. intros it Hit.
      apply (proj1 (Forall_forall _ _) Hpaths). by apply (elem_of_sublist kept). }
    exists paths. split; [done|]. unfold hide_old_projects.
    pose proof (hide_loop_scan fs tabs (projects t) []) as Hloop.
    rewrite app_nil_r in Hloop. rewrite Hloop by done. simpl.
    fold (evictStale (project_exists fs) (project_has_document tabs)
                     PROJECT_AUTOCLOSE_COUNT (projects t)).
    fold kept. by rewrite Hmap.
  - apply Forall_forall. by apply evict_scan_exists.
  - intros it Hit He Hd. apply evict_scan_document; [|done|done].
    apply elem_of_rev. done.
  - destruct (evict_scan_cap (project_exists fs) (project_has_document tabs)
                PROJECT_AUTOCLOSE_COUNT (rev (projects t)) []) as [Hle|Hall].
    + by right.
    + by left.
    + right. by apply Forall_forall.
  - intros rest lru Heq Hlen Hall Hdoc. subst kept. unfold evictStale.
    rewrite Heq, rev_app_distr. simpl.
    rewrite Hall by (rewrite Heq, elem_of_app, list_elem_of_singleton; by right).
    rewrite Hdoc. simpl.
    rewrite Heq, length_app in Hlen. simpl in Hlen.
    replace (Nat.ltb PROJECT_AUTOCLOSE_COUNT (length (rev rest) + 1 + 0)) with true.
    2:{ symmetry. apply Nat.ltb_lt. rewrite length_rev. unfold PROJECT_AUTOCLOSE_COUNT. lia. }
    simpl. rewrite evict_scan_within_cap.
    + by rewrite rev_involutive, app_nil_r.
    + apply Forall_forall. intros it Hit. apply Hall. rewrite Heq, elem_of_app. left.
      by apply elem_of_rev.
    + rewrite length_rev. unfold PROJECT_AUTOCLOSE_COUNT. simpl. lia.
Qed.

(** Decidable facts about concrete values, by evaluation. *)
Ltac by_compute := apply (bool_decide_unpack _); vm_compute; exact I.

Lemma hide_old_projects_evicts_witness :
  NoDup (List.map item_id (projects sample_tree))
  ∧ Forall (fun it => is_Some (get_path it)) (projects sample_tree)
  ∧ let kept := evictStale (project_exists sample_fs) (project_has_document sample_tabs)
                           PROJECT_AUTOCLOSE_COUNT (projects sample_tree) in
    (∃ paths,
       mapM get_path kept = Some paths
       ∧ hide_old_projects sample_fs sample_tabs sample_tree
         = Some (mkTree kept (next_id sample_tree) (git_statuses sample_tree)
                        (List.map str_path paths) (in_flight sample_tree)))
    ∧ sublist kept (projects sample_tree)
    ∧ (∀ it, it ∈ kept → project_exists sample_fs it = true)
    ∧ (∀ it, it ∈ projects sample_tree → project_exists sample_fs it = true →
             project_has_document sample_tabs it = true → it ∈ kept)
    ∧ (length kept ≤ PROJECT_AUTOCLOSE_COUNT
       ∨ ∀ it, it ∈ kept → project_has_document sample_tabs it = true)
    ∧ (∀ rest lru,
         projects sample_tree = rest ++ [lru] →
         length (projects sample_tree) = 6 →
         (∀ it, it ∈ projects sample_tree → project_exists sample_fs it = true) →
         project_has_document sample_tabs lru = false →
         kept = rest).
Proof.
  assert (NoDup (List.map item_id (projects sample_tree))) as Hnd by by_compute.
  assert (Forall (fun it => is_Some (get_path it)) (projects sample_tree)) as Hpaths.
  { repeat constructor; by eexists. }
  split; [done|]. split; [done|].
  by apply hide_old_projects_evicts.
Defined.

Example hide_old_projects_sample :
  hide_old_projects sample_fs sample_tabs sample_tree
  = Some (mkTree [project_item 11 "f"; project_item 7 "d"; project_item 5 "c";
                  project_item 3 "b"]
                 13 ∅ ["/home/f"; "/home/d"; "/home/c"; "/home/b"] []).
Proof. vm_compute. reflexivity. Qed.

Section EvictStaleMore.
Context {A : Type} (exists_on_disk has_document : A -> bool) (cap : nat).

Local Abbreviation scan' := (evict_scan exists_on_disk has_document cap).

Lemma evict_scan_settled (rev_todo kept : list A) :
  Forall (fun x => exists_on_disk x = true) rev_todo →
  length rev_todo + length kept ≤ cap
  ∨ Forall (fun x => has_document x = true) rev_todo →
  scan' rev_todo kept = rev rev_todo ++ kept.
Proof.
  revert kept. induction rev_todo as [|y rest IH]; intros kept Hall Hinv; simpl; [done|].
  apply Forall_cons in Hall as [Hy Hall]. rewrite Hy. simpl.
  replace (Nat.ltb cap (length rest + 1 + length kept) && negb (has_document y))
    with false.
  - rewrite IH; [by rewrite <- app_assoc|done|].
    destruct Hinv as [Hle|Hdoc]; [left; simpl in *; lia|right].
    by apply Forall_cons in Hdoc as [_ ?].
  - symmetry. apply andb_false_iff. destruct Hinv as [Hle|Hdoc].
    + left. apply Nat.ltb_ge. simpl in Hle. lia.
    + right. apply Forall_cons in Hdoc as [-> _]. done.
Qed.

Lemma evictStale_idempotent (tracked : list A) :
  evictStale exists_on_disk has_document cap
    (evictStale exists_on_disk has_document cap tracked)
  = evictStale exists_on_disk has_document cap tracked.
Proof.
  set (kept := evictStale exists_on_disk has_document cap tracked).
  unfold evictStale at 1. rewrite evict_scan_settled.
  - by rewrite rev_involutive, app_nil_r.
  - apply List.Forall_rev. by apply evict_scan_exists.
  - rewrite length_rev. simpl.
    destruct (evict_scan_cap exists_on_disk has_document cap (rev tracked) [])
      as [Hle|Hdoc]; [by right|left; unfold kept, evictStale; lia|right].
    by apply List.Forall_rev.
Qed.

Lemma evict_scan_at_least (rev_todo kept : list A) :
  Forall (fun x => exists_on_disk x = true) rev_todo →
  Nat.min (length rev_todo + length kept) cap ≤ length (scan' rev_todo kept).
Proof.
  revert kept. induction rev_todo as [|y rest IH]; intros kept Hall;
    cbn [evict_scan length]; [lia|].
  apply Forall_cons in Hall as [Hy Hall]. rewrite Hy. cbn [negb orb].
  pose proof (IH kept Hall) as IHremoved.
  pose proof (IH (y :: kept) Hall) as IHkept. cbn [length] in IHkept.
  destruct (Nat.ltb cap (length rest + 1 + length kept)) eqn:Hlt; cbn [andb].
  - apply Nat.ltb_lt in Hlt. destruct (has_document y); cbn [negb]; lia.
  - lia.
Qed.
End EvictStaleMore.

Lemma hide_old_projects_scan (fs : FileSystem) (tabs : list Tab) (t : DirectoryTree) :
  NoDup (List.map item_id (projects t)) →
  Forall (fun it => is_Some (get_path it)) (projects t) →
  let kept := evictStale (project_exists fs) (project_has_document tabs)
                         PROJECT_AUTOCLOSE_COUNT (projects t) in
  sublist kept (projects t)
  ∧ ∃ paths,
      mapM get_path kept = Some paths
      ∧ hide_old_projects fs tabs t
        = Some (mkTree kept (next_id t) (git_statuses t)
                       (List.map str_path paths) (in_flight t)).
Proof.
  intros Hnd Hpaths kept.
  assert (sublist kept (projects t)) as Hsub.
  { pose proof (evict_scan_sublist (project_exists fs) (project_has_document tabs)
                  PROJECT_AUTOCLOSE_COUNT (rev (projects t)) []) as H.
    by rewrite rev_involutive, app_nil_r in H. }
  split; [done|].
  assert (is_Some (mapM get_path kept)) as [paths Hmap].
  { apply mapM_is_Some. apply Forall_forall. intros it Hit.
    apply (proj1 (Forall_forall _ _) Hpaths). by apply (elem_of_sublist kept). }
  exists paths. split; [done|]. unfold hide_old_projects.
  pose proof (hide_loop_scan fs tabs (projects t) []) as Hloop.
  rewrite app_nil_r in Hloop. rewrite Hloop by done. simpl.
  fold (evictStale (project_exists fs) (project_has_document tabs)
                   PROJECT_AUTOCLOSE_COUNT (projects t)).
  fold kept. by rewrite Hmap.
Qed.

(** X2: an eviction check settles the registry: run again with the same
    file system and the same tabs, it removes nothing and persists the same
    list. *)
Theorem hide_old_projects_twice (fs : FileSystem) (tabs : list Tab)
    (t t1 : DirectoryTree) :
  NoDup (List.map item_id (projects t)) →
  Forall (fun it => is_Some (get_path it)) (projects t) →
  hide_old_projects fs tabs t = Some t1 →
  hide_old_projects fs tabs t1 = Some t1.
Proof.
  intros Hnd Hpaths Hrun.
  destruct (hide_old_projects_scan fs tabs t Hnd Hpaths) as (Hsub & paths & Hmap & Hrun1).
  rewrite Hrun1 in Hrun. injection Hrun as <-.
  set (kept := evictStale _ _ _ (projects t)) in *.
  destruct (hide_old_projects_scan fs tabs
              (mkTree kept (next_id t) (git_statuses t) (List.map str_path paths)
                      (in_flight t)))
    as (_ & paths2 & Hmap2 & Hrun2).
  - simpl. eapply sublist_NoDup; [exact Hnd|]. by apply fmap_sublist.
  - simpl. apply Forall_forall. intros it Hit.
    apply (proj1 (Forall_forall _ _) Hpaths). by apply (elem_of_sublist kept).
  - simpl in *. rewrite Hrun2. unfold kept in Hmap2 |- *.
    rewrite evictStale_idempotent in Hmap2 |- *. fold kept in Hmap2 |- *.
    rewrite Hmap in Hmap2. by injection Hmap2 as <-.
Qed.

Lemma hide_old_projects_twice_witness :
  NoDup (List.map item_id (projects sample_tree))
  ∧ Forall (fun it => is_Some (get_path it)) (projects sample_tree)
  ∧ ∃ t1, hide_old_projects sample_fs sample_tabs sample_tree = Some t1
          ∧ hide_old_projects sample_fs sample_tabs t1 = Some t1.
Proof.
  assert (NoDup (List.map item_id (projects sample_tree))) as Hnd by by_compute.
  assert (Forall (fun it => is_Some (get_path it)) (projects sample_tree)) as Hpaths.
  { repeat constructor; by eexists. }
  split; [done|]. split; [done|].
  eexists. split; [vm_compute; reflexivity|].
  apply (hide_old_projects_twice sample_fs sample_tabs sample_tree); [done|done|].
  vm_compute. reflexivity.
Defined.

(** X3: when every tracked project is a directory on disk, an eviction
    check never goes below the cap: it keeps at least min(n, 5) of the n
    projects, and all of them when n is at most 5. *)
Theorem hide_old_projects_keeps_cap (fs : FileSystem) (tabs : list Tab)
    (t t1 : DirectoryTree) :
  NoDup (List.map item_id (projects t)) →
  Forall (fun it => is_Some (get_path it)) (projects t) →
  (∀ it, it ∈ projects t → project_exists fs it = true) →
  hide_old_projects fs tabs t = Some t1 →
  Nat.min (length (projects t)) PROJECT_AUTOCLOSE_COUNT ≤ length (projects t1)
  ∧ (length (projects t) ≤ PROJECT_AUTOCLOSE_COUNT → projects t1 = projects t).
Proof.
  intros Hnd Hpaths Hall Hrun.
  destruct (hide_old_projects_scan fs tabs t Hnd Hpaths) as (_ & paths & _ & Hrun1).
  rewrite Hrun1 in Hrun. injection Hrun as <-. simpl.
  assert (Forall (fun x => project_exists fs x = true) (rev (projects t))) as Hrev.
  { apply List.Forall_rev. by apply Forall_forall. }
  split.
  - pose proof (evict_scan_at_least (project_exists fs) (project_has_document tabs)
                  PROJECT_AUTOCLOSE_COUNT (rev (projects t)) [] Hrev) as Hmin.
    rewrite length_rev in Hmin. simpl in Hmin. rewrite Nat.add_0_r in Hmin. exact Hmin.
  - intros Hle. unfold evictStale. rewrite evict_scan_within_cap.
    + by rewrite rev_involutive, app_nil_r.
    + done.
    + rewrite length_rev. simpl. lia.
Qed.

Lemma hide_old_projects_keeps_cap_witness :
  let fs := {| fs_listdir := fun _ => None; fs_is_dir := fun _ => true |} in
  NoDup (List.map item_id (projects sample_tree))
  ∧ Forall (fun it => is_Some (get_path it)) (projects sample_tree)
  ∧ (∀ it, it ∈ projects sample_tree → project_exists fs it = true)
  ∧ ∃ t1, hide_old_projects fs [] sample_tree = Some t1
          ∧ Nat.min (length (projects sample_tree)) PROJECT_AUTOCLOSE_COUNT
            ≤ length (projects t1)
          ∧ (length (projects sample_tree) ≤ PROJECT_AUTOCLOSE_COUNT →
             projects t1 = projects sample_tree).
Proof.
  intros fs.
  assert (NoDup (List.map item_id (projects sample_tree))) as Hnd by by_compute.
  assert (Forall (fun it => is_Some (get_path it)) (projects sample_tree)) as Hpaths.
  { repeat constructor; by eexists. }
  assert (∀ it, it ∈ projects sample_tree → project_exists fs it = true) as Hall.
  { apply Forall_forall. repeat constructor. }
  split; [done|]. split; [done|]. split; [done|].
  eexists. split; [vm_compute; reflexivity|].
  apply (hide_old_projects_keeps_cap fs [] sample_tree); [done|done|done|].
  vm_compute. reflexivity.
Defined.

(** ** TreeSynchronizer: what a reconciliation keeps *)

Lemma refresh_child_item (fs : FileSystem) (statuses : gmap Path (gmap Path Status))
    (roots : gset Path) (fuel : nat) (child_path : Path) (child child' : Item)
    (next next' : nat) :
  refresh_child statuses roots (open_and_refresh_directory fs statuses roots fuel)
                child_path child next = Some (child', next') →
  item_id child' = item_id child ∧ item_values child' = item_values child.
Proof.
  unfold refresh_child.
  destruct (relevant_parents roots child_path) as [chain|]; [|done]. simpl.
  destruct (statuses !! _) as [git_status|]; [|done]. simpl.
  destruct (compute_new_tags _ _ _ _) as [new_tags|]; [|done]. simpl.
  set (child1 := if decide (item_tags child = new_tags) then child else _).
  assert (item_id child1 = item_id child ∧ item_values child1 = item_values child)
    as [Hid Hval].
  { subst child1. by case_decide. }
  destruct (_ && _).
  - intros (Hid' & Hval' & _)%open_and_refresh_directory_item. by rewrite Hid', Hval'.
  - by intros [= <- _].
Qed.

Lemma replace_item_ids (id : nat) (new : Item) (l : list Item) :
  item_id new = id →
  List.map item_id (replace_item id new l) = List.map item_id l.
Proof.
  intros Hid. unfold replace_item. rewrite List.map_map. apply List.map_ext.
  intros it. destruct (Nat.eqb_spec (item_id it) id); congruence.
Qed.

Lemma find_item_id (id : nat) (l : list Item) (it : Item) :
  find_item id l = Some it → item_id it = id ∧ it ∈ l.
Proof.
  unfold find_item. intros H. apply List.find_some in H as [Hin Heq].
  apply Nat.eqb_eq in Heq. by rewrite <- list_elem_of_In in Hin.
Qed.

Lemma refresh_children_ids (fs : FileSystem) (statuses : gmap Path (gmap Path Status))
    (roots : gset Path) (fuel : nat) (entries : list (Path * nat))
    (children children' : list Item) (next next' : nat) :
  refresh_children statuses roots (open_and_refresh_directory fs statuses roots fuel)
                   entries children next = Some (children', next') →
  List.map item_id children' = List.map item_id children.
Proof.
  revert children next. induction entries as [|[child_path child_id] rest IH];
    intros children next; simpl.
  - by intros [= <- _].
  - destruct (find_item child_id children) as [child|] eqn:Hfind; [|done]. simpl.
    destruct (refresh_child _ _ _ _ _ _) as [[child' next1]|] eqn:Hchild; [|done].
    simpl. intros Hrest. apply IH in Hrest. rewrite Hrest.
    apply replace_item_ids. apply refresh_child_item in Hchild as [-> _].
    by apply find_item_id in Hfind as [? _].
Qed.

(** ** StatusProbe: lines without a status code *)

(** X4: an output line shorter than two characters (an empty line, say)
    makes [run_git_status] fail on [line[1]]: the [IndexError] is raised
    outside the [try] and no map is returned, whatever the other lines
    are. *)
Theorem run_git_status_short_line (project_root : Path) (stdout line : str) :
  line ∈ splitlines stdout → length line < 2 →
  run_git_status project_root (RunCompleted 0 stdout) = None.
Proof.
  intros Hin Hlen. unfold run_git_status. simpl.
  by apply (status_lines_short_line project_root _ line).
Qed.

Lemma run_git_status_short_line_witness :
  let stdout := str_of " M a.py" ++ 10%N :: 10%N :: str_of "?? b.py" in
  [] ∈ splitlines stdout ∧ length (@nil N) < 2
  ∧ run_git_status ["proj"] (RunCompleted 0 stdout) = None.
Proof.
  intros stdout.
  assert ([] ∈ splitlines stdout) as Hin.
  { vm_compute. apply list_elem_of_In. simpl. tauto. }
  assert (length (@nil N) < 2) as Hlen by (simpl; lia).
  split; [done|]. split; [done|].
  by apply (run_git_status_short_line ["proj"] stdout []).
Defined.

(** ** Sorting *)

Lemma key_leb_refl (k : SortKey) : key_leb k k = true.
Proof.
  destruct k as [[r d] s]. unfold key_leb.
  rewrite !Nat.eqb_refl, !Nat.ltb_irrefl. simpl.
  apply Is_true_true. apply (reflexivity (R := String.le)).
Qed.

Lemma key_leb_total (k1 k2 : SortKey) : key_leb k1 k2 = true ∨ key_leb k2 k1 = true.
Proof.
  destruct k1 as [[r1 d1] s1], k2 as [[r2 d2] s2]. unfold key_leb.
  destruct (Nat.ltb_spec r1 r2); [by left|].
  destruct (Nat.ltb_spec r2 r1); [by right|].
  assert (r1 = r2) as -> by lia. rewrite Nat.eqb_refl. simpl.
  destruct (Nat.ltb_spec d1 d2); [by left|].
  destruct (Nat.ltb_spec d2 d1); [by right|].
  assert (d1 = d2) as -> by lia. rewrite Nat.eqb_refl. simpl.
  apply String.leb_total.
Qed.

Lemma key_leb_trans (k1 k2 k3 : SortKey) :
  key_leb k1 k2 = true → key_leb k2 k3 = true → key_leb k1 k3 = true.
Proof.
  destruct k1 as [[r1 d1] s1], k2 as [[r2 d2] s2], k3 as [[r3 d3] s3]. unfold key_leb.
  destruct (Nat.ltb_spec r1 r2), (Nat.ltb_spec r2 r3), (Nat.ltb_spec r1 r3);
    simpl; try done; try lia;
    destruct (Nat.eqb_spec r1 r2), (Nat.eqb_spec r2 r3), (Nat.eqb_spec r1 r3);
    simpl; try done; try lia.
  destruct (Nat.ltb_spec d1 d2), (Nat.ltb_spec d2 d3), (Nat.ltb_spec d1 d3);
    simpl; try done; try lia;
    destruct (Nat.eqb_spec d1 d2), (Nat.eqb_spec d2 d3), (Nat.eqb_spec d1 d3);
    simpl; try done; try lia.
  intros H12%Is_true_true H23%Is_true_true. apply Is_true_true.
  by apply (transitivity (R := String.le) (y := s2)).
Qed.

Lemma key_leb_antisym (k1 k2 : SortKey) :
  key_leb k1 k2 = true → key_leb k2 k1 = true → k1 = k2.
Proof.
  destruct k1 as [[r1 d1] s1], k2 as [[r2 d2] s2]. unfold key_leb.
  destruct (Nat.ltb_spec r1 r2), (Nat.ltb_spec r2 r1); simpl; try lia;
    destruct (Nat.eqb_spec r1 r2), (Nat.eqb_spec r2 r1); simpl; try done; try lia.
  destruct (Nat.ltb_spec d1 d2), (Nat.ltb_spec d2 d1); simpl; try lia;
    destruct (Nat.eqb_spec d1 d2), (Nat.eqb_spec d2 d1); simpl; try done; try lia.
  intros H12 H21. by rewrite (String.leb_antisym _ _ H12 H21); subst.
Qed.

Section StableSortFacts.
Context {A : Type} (key : A -> SortKey).

Local Abbreviation key_le := (fun a b : A => key_leb (key a) (key b) = true).

Lemma insert_sorted_perm (x : A) (l : list A) :
  Permutation (insert_sorted key x l) (x :: l).
Proof.
  induction l as [|y l IH]; simpl; [done|].
  destruct (key_leb (key x) (key y)); [done|].
  rewrite IH. apply perm_swap.
Qed.

Lemma sorted_perm (l : list A) : Permutation (sorted key l) l.
Proof.
  induction l as [|x l IH]; simpl; [done|].
  by rewrite insert_sorted_perm, IH.
Qed.

Lemma insert_sorted_sorted (x : A) (l : list A) :
  StronglySorted key_le l → StronglySorted key_le (insert_sorted key x l).
Proof.
  induction 1 as [|y l Hl IH Hy]; simpl.
  - repeat constructor.
  - destruct (key_leb (key x) (key y)) eqn:Hxy.
    + constructor; [by constructor|]. constructor; [done|].
      eapply Forall_impl; [exact Hy|]. intros z Hz. simpl in *.
      by apply (key_leb_trans _ (key y)).
    + constructor; [done|].
      rewrite insert_sorted_perm. constructor; [|done].
      destruct (key_leb_total (key x) (key y)); congruence.
Qed.

Lemma sorted_sorted (l : list A) : StronglySorted key_le (sorted key l).
Proof.
  induction l as [|x l IH]; simpl; [constructor|]. by apply insert_sorted_sorted.
Qed.

Lemma insert_sorted_filter (k : SortKey) (x : A) (l : list A) :
  List.filter (fun y => bool_decide (key y = k)) (insert_sorted key x l)
  = List.filter (fun y => bool_decide (key y = k)) (x :: l).
Proof.
  induction l as [|y l IH]; [done|]. cbn [insert_sorted].
  destruct (key_leb (key x) (key y)) eqn:Hxy; [done|].
  cbn [List.filter] in *. rewrite IH.
  repeat case_bool_decide; try done.
  subst k. rewrite H0, key_leb_refl in Hxy. done.
Qed.

Lemma sorted_filter (k : SortKey) (l : list A) :
  List.filter (fun y => bool_decide (key y = k)) (sorted key l)
  = List.filter (fun y => bool_decide (key y = k)) l.
Proof.
  induction l as [|x l IH]; [done|]. cbn [sorted].
  rewrite insert_sorted_filter. cbn [List.filter]. by rewrite IH.
Qed.

Lemma sorted_fixed (l : list A) : StronglySorted key_le l → sorted key l = l.
Proof.
  induction 1 as [|x l Hl IH Hx]; [done|]. simpl. rewrite IH.
  destruct l as [|y l]; [done|]. simpl.
  apply Forall_cons in Hx as [-> _]. done.
Qed.

(** X5: [sorted(..., key=...)] as modelled is a stable sort: the result is
    a permutation of the input, its keys ascend in Python's order on the
    key tuples, and elements with the same key keep their relative
    order. *)
Theorem sorted_stable (l : list A) :
  Permutation (sorted key l) l
  ∧ StronglySorted key_le (sorted key l)
  ∧ ∀ k, List.filter (fun y => bool_decide (key y = k)) (sorted key l)
         = List.filter (fun y => bool_decide (key y = k)) l.
Proof.
  split; [apply sorted_perm|]. split; [apply sorted_sorted|]. intros k. apply sorted_filter.
Qed.
End StableSortFacts.
